(** * The p2p switch of gohotstuff

    A shallow embedding of [p2p.Switch] (package [p2p]): the reactor table,
    start-up, bootstrap, peer admission on the inbound and the outbound path,
    point-to-point send and broadcast.

    The switch talks to libp2p, to the Kademlia DHT and to its peers.  Those
    calls are taken as an interface ([Externals]) over an abstract state of
    the outside world; every call the switch issues is also appended to a
    trace, so that "closes the stream", "logs an error" or "sends to exactly
    that peer" are statements about the trace. *)

From Stdlib Require Import ZArith Lia.
From stdpp Require Import base option list gmap strings.

Local Open Scope string_scope.
Local Open Scope list_scope.

(** ** Data *)

(** [peer.ID] is a Go string; its zero value is the empty string. *)
Abbreviation PeerID := string (only parsing).
Abbreviation Multiaddr := string (only parsing).
Abbreviation bytes := (list Byte.byte) (only parsing).

Definition zero_ID : PeerID := "".

(** [peer.AddrInfo] *)
Record AddrInfo := mkAddrInfo { ai_ID : PeerID; ai_Addrs : list Multiaddr }.

(** Handles of objects that live in the libraries. *)
Inductive Host := HostHandle (n : nat).
Inductive DHT := DHTHandle (n : nat).
Inductive Stream := StreamHandle (n : nat).
Inductive PrivKey := PrivKeyOf (raw : bytes).

(** [type Config struct] *)
Record Config := mkConfig {
  Address : string;
  BootStrap : list string;
  PrivateKey : string;
  PublicKey : string;
  TickerTimeSec : Z
}.

Definition defaultTickerTimeSec : Z := 4%Z.
Definition protocolPrefix : string := "/gohotstuff/p2p".

(** Go [error] values.  An error that comes out of a library call keeps the
    call it came from and an opaque code; [nil] is [None] throughout. *)
Inductive Origin :=
| Base64Decode | UnmarshalKey | NewHost | NewDHT | DHTBootstrap
| HostNewStream | NewPeer | ParseAddr | AddrInfoOf | HostConnect
| DecodeID | PeerValidate.

Inductive Error :=
| ExtErr (from : Origin) (code : nat)
| ErrPeerNotFound
| ErrModuleRegistered
| ErrSendFailed.

Definition tag {A} (o : Origin) (r : nat + A) : Error + A :=
  match r with inl c => inl (ExtErr o c) | inr a => inr a end.

Definition tag_err (o : Origin) (r : option nat) : option Error :=
  ExtErr o <$> r.

(** Modelled from the spec: the Peer of peer.go, which is not among the
    sources.  "Attributes: remote identity, the underlying stream handle";
    its validity and the outcome of its sends are state of the connection
    and live in the outside world. *)
Record Peer := mkPeer { peer_ID : PeerID; peer_stream : Stream }.

(** ** The trace of calls *)

Inductive Level := LInfo | LError.

(** A log entry keeps the format string of the call site and those of its
    arguments that are identities or addresses. *)
Inductive Event :=
| ELog (lvl : Level) (fmt : string) (args : list string)
| ENewHost (addr : string)
| ESetStreamHandler (h : Host) (proto : string)
| ENewDHT (h : Host)
| EDHTBootstrap (d : DHT)
| EConnect (h : Host) (ai : AddrInfo)
| ENewStream (h : Host) (id : PeerID)
| ENewPeer (info : AddrInfo) (s : Stream)
| EStreamClose (s : Stream)
| ERemovePeer (d : DHT) (id : PeerID)
| EPeerStart (p : Peer)
| EPeerSend (p : Peer) (chID : Z) (msg : bytes) (ok : bool)
| ESpawnAcceptRoutine.

Definition is_error_log (e : Event) : bool :=
  match e with ELog LError _ _ => true | _ => false end.

Definition is_peer_start (e : Event) : bool :=
  match e with EPeerStart _ => true | _ => false end.

Definition is_send (e : Event) : bool :=
  match e with EPeerSend _ _ _ _ => true | _ => false end.

Section Switch.

(** [Module] and [libs.Reactor] are declared outside the sources. *)
Context {Module : Type} `{Countable Module}.
Context {Reactor : Type}.

(** The state of the outside world: network, peer store, routing table,
    the connections behind the peers. *)
Context {Net : Type}.

(** ** The library calls the switch makes *)
Record Externals := mkExternals {
  (* encoding/base64, crypto *)
  x_DecodeString : string -> nat + bytes;
  x_UnmarshalPrivateKey : bytes -> nat + PrivKey;
  (* libp2p host *)
  x_New : string -> PrivKey -> Net -> (nat + Host) * Net;
  x_SetStreamHandler : Host -> Net -> Net;
  x_HostID : Host -> PeerID;
  x_Addrs : Host -> Net -> list Multiaddr;
  x_Connect : Host -> AddrInfo -> Net -> option nat * Net;
  x_NewStream : Host -> PeerID -> Net -> (nat + Stream) * Net;
  x_PeerstoreAddrs : Host -> PeerID -> Net -> list Multiaddr;
  x_RemotePeer : Stream -> PeerID;
  x_StreamClose : Stream -> Net -> Net;
  (* kad-dht; the routing table is the DHT's and changes as it learns of
     peers, so listing it is a call into the outside world *)
  x_NewDHT : Host -> Net -> (nat + DHT) * Net;
  x_DHTBootstrap : DHT -> Net -> option nat * Net;
  x_ListPeers : DHT -> Net -> list PeerID * Net;
  x_RemovePeer : DHT -> PeerID -> Net -> Net;
  (* addresses and identities *)
  x_ParseString : string -> nat + Multiaddr;
  x_AddrInfoFromP2pAddr : Multiaddr -> nat + AddrInfo;
  x_Decode : string -> nat + PeerID;
  (* peer.go: whether construction fails, whether the stream of a peer is
     still usable, whether a send gets through *)
  x_NewDefaultPeer : AddrInfo -> Stream -> gmap Module Reactor -> Net -> option nat;
  x_Validate : Peer -> Net -> option nat;
  x_Send : Peer -> Z -> bytes -> Net -> bool * Net;
  x_Start : Peer -> Net -> Net;
  (* the order in which concurrent attempts of a fan-out complete *)
  x_Sched : nat -> Net -> nat
}.

Variable X : Externals.

(** ** The switch *)

(** [type Switch struct]; [timer], [quit], [mtx] and [log] carry no data of
    their own here: the logger's output is in the trace. *)
Record Switch := mkSwitch {
  sw_cfg : Config;
  sw_id : option Multiaddr;
  sw_host : option Host;
  sw_kdht : option DHT;
  sw_peers : gmap PeerID Peer;
  sw_reactor : gmap Module Reactor
}.

Record World := mkWorld {
  w_sw : Switch;
  w_ext : Net;
  w_trace : list Event
}.

Definition with_id (a : option Multiaddr) (s : Switch) : Switch :=
  mkSwitch (sw_cfg s) a (sw_host s) (sw_kdht s) (sw_peers s) (sw_reactor s).
Definition with_host (h : option Host) (s : Switch) : Switch :=
  mkSwitch (sw_cfg s) (sw_id s) h (sw_kdht s) (sw_peers s) (sw_reactor s).
Definition with_kdht (d : option DHT) (s : Switch) : Switch :=
  mkSwitch (sw_cfg s) (sw_id s) (sw_host s) d (sw_peers s) (sw_reactor s).
Definition with_peers (ps : gmap PeerID Peer) (s : Switch) : Switch :=
  mkSwitch (sw_cfg s) (sw_id s) (sw_host s) (sw_kdht s) ps (sw_reactor s).
Definition with_reactor (r : gmap Module Reactor) (s : Switch) : Switch :=
  mkSwitch (sw_cfg s) (sw_id s) (sw_host s) (sw_kdht s) (sw_peers s) r.

(** ** A state monad with panics and divergence *)

Inductive Outcome (A : Type) :=
| Done (a : A) (w : World)   (* the call returned [a] *)
| Panic (w : World)          (* nil dereference, index out of range *)
| Spin.                      (* the loop did not finish within the fuel *)
Arguments Done {A} a w.
Arguments Panic {A} w.
Arguments Spin {A}.

Definition M (A : Type) := World -> Outcome A.

Definition ret {A} (a : A) : M A := fun w => Done a w.

Definition bind {A B} (m : M A) (k : A -> M B) : M B :=
  fun w => match m w with
           | Done a w' => k a w'
           | Panic w' => Panic w'
           | Spin => Spin
           end.

Notation "'let*' x ':=' m 'in' k" := (bind m (fun x => k))
  (at level 10, x name, m at level 100, k at level 200).
Notation "m ;; k" := (bind m (fun _ => k))
  (at level 100, k at level 200, right associativity).

Definition panic {A} : M A := fun w => Panic w.
Definition spin {A} : M A := fun _ => Spin.

Definition get_sw : M Switch := fun w => Done (w_sw w) w.
Definition upd_sw (f : Switch -> Switch) : M unit :=
  fun w => Done tt (mkWorld (f (w_sw w)) (w_ext w) (w_trace w)).
Definition emit (e : Event) : M unit :=
  fun w => Done tt (mkWorld (w_sw w) (w_ext w) (w_trace w ++ [e])).
(** An effectful library call, and one that only reads. *)
Definition call {A} (f : Net -> A * Net) : M A :=
  fun w => let (a, o) := f (w_ext w) in Done a (mkWorld (w_sw w) o (w_trace w)).
Definition act (f : Net -> Net) : M unit :=
  fun w => Done tt (mkWorld (w_sw w) (f (w_ext w)) (w_trace w)).
Definition read {A} (f : Net -> A) : M A :=
  fun w => Done (f (w_ext w)) w.

Definition log_Info (fmt : string) (args : list string) : M unit :=
  emit (ELog LInfo fmt args).
Definition log_Error (fmt : string) (args : list string) : M unit :=
  emit (ELog LError fmt args).

(** [sw.host] and [sw.kdht] are nil until [Start] sets them; a method call
    through nil panics. *)
Definition the_host : M Host :=
  let* s := get_sw in
  match sw_host s with Some h => ret h | None => panic end.
Definition the_kdht : M DHT :=
  let* s := get_sw in
  match sw_kdht s with Some d => ret d | None => panic end.

(** ** Library calls, recorded *)

Definition libp2p_New (addr : string) (priv : PrivKey) : M (Error + Host) :=
  let* r := call (x_New X addr priv) in
  emit (ENewHost addr) ;; ret (tag NewHost r).

Definition host_SetStreamHandler (h : Host) (proto : string) : M unit :=
  act (x_SetStreamHandler X h) ;; emit (ESetStreamHandler h proto).

Definition dht_New (h : Host) : M (Error + DHT) :=
  let* r := call (x_NewDHT X h) in
  emit (ENewDHT h) ;; ret (tag NewDHT r).

Definition kdht_Bootstrap (d : DHT) : M (option Error) :=
  let* r := call (x_DHTBootstrap X d) in
  emit (EDHTBootstrap d) ;; ret (tag_err DHTBootstrap r).

Definition RoutingTable_ListPeers (d : DHT) : M (list PeerID) :=
  call (x_ListPeers X d).

Definition RoutingTable_RemovePeer (d : DHT) (id : PeerID) : M unit :=
  act (x_RemovePeer X d id) ;; emit (ERemovePeer d id).

Definition host_Connect (h : Host) (ai : AddrInfo) : M (option Error) :=
  let* r := call (x_Connect X h ai) in
  emit (EConnect h ai) ;; ret (tag_err HostConnect r).

Definition host_NewStream (h : Host) (id : PeerID) : M (Error + Stream) :=
  let* r := call (x_NewStream X h id) in
  emit (ENewStream h id) ;; ret (tag HostNewStream r).

(** [Peerstore().PeerInfo(id)] is [AddrInfo{ID: id, Addrs: ps.Addrs(id)}]. *)
Definition Peerstore_PeerInfo (h : Host) (id : PeerID) : M AddrInfo :=
  let* addrs := read (x_PeerstoreAddrs X h id) in
  ret (mkAddrInfo id addrs).

Definition stream_Close (s : Stream) : M unit :=
  act (x_StreamClose X s) ;; emit (EStreamClose s).

Definition ipfsaddr_ParseString (s : string) : Error + Multiaddr :=
  tag ParseAddr (x_ParseString X s).
Definition peer_AddrInfoFromP2pAddr (m : Multiaddr) : Error + AddrInfo :=
  tag AddrInfoOf (x_AddrInfoFromP2pAddr X m).

(** [peer.Decode] returns the zero identity together with its error. *)
Definition peer_Decode (s : string) : PeerID * option Error :=
  match x_Decode X s with
  | inl c => (zero_ID, Some (ExtErr DecodeID c))
  | inr i => (i, None)
  end.

(** ** Peer and PeerSet *)

(** Modelled from the spec: NewDefaultPeer of peer.go.  "construct a new
    Peer from the remote identity's known address info and the opened
    stream"; whether construction fails is up to the library side. *)
Definition NewDefaultPeer (info : AddrInfo) (s : Stream)
    (r : gmap Module Reactor) : M (Error + Peer) :=
  let* e := read (x_NewDefaultPeer X info s r) in
  match e with
  | Some c => ret (inl (ExtErr NewPeer c))
  | None => emit (ENewPeer info s) ;; ret (inr (mkPeer (ai_ID info) s))
  end.

(** Modelled from the spec: the methods of Peer.  "Validate() reports
    whether the underlying stream is still usable"; "Send(channel, payload)
    ... returns a success/failure boolean"; "Start() launches the inbound
    demultiplex loop". *)
Definition Peer_Validate (p : Peer) : M (option Error) :=
  let* r := read (x_Validate X p) in ret (tag_err PeerValidate r).

Definition Peer_Send (p : Peer) (chID : Z) (msg : bytes) : M bool :=
  let* ok := call (x_Send X p chID msg) in
  emit (EPeerSend p chID msg ok) ;; ret ok.

Definition Peer_Start (p : Peer) : M unit :=
  act (x_Start X p) ;; emit (EPeerStart p).

(** Modelled from the spec: the PeerSet of peer_set.go, which is not among
    the sources.  "a mapping from Identity to Peer"; lookup "fails with
    'peer not found' if absent"; "a present-but-invalidated entry may be
    replaced". *)
Definition NewPeerSet : gmap PeerID Peer := ∅.

Definition PeerSet_Find (id : PeerID) : M (Error + Peer) :=
  let* s := get_sw in
  match sw_peers s !! id with
  | Some p => ret (inr p)
  | None => ret (inl ErrPeerNotFound)
  end.

Definition PeerSet_Add (p : Peer) : M unit :=
  upd_sw (fun s => with_peers (<[peer_ID p := p]> (sw_peers s)) s).

(** Modelled from the spec: PeerSet.Range, the "fan-out 'apply to all'
    traversal": "spawns one concurrent send attempt per live peer and joins
    on all of them before returning".  The peers are those registered when
    the traversal starts; the attempts complete one after the other in an
    order the scheduler picks. *)
Fixpoint fan_out (f : Peer -> M bool) (n : nat) (pending : list Peer) : M unit :=
  match n with
  | O => ret tt
  | S n' =>
      let* i := read (fun o => x_Sched X (length pending) o `mod` length pending) in
      match pending !! i with
      | None => ret tt
      | Some p => f p ;; fan_out f n' (delete i pending)
      end
  end.

Definition PeerSet_List (ps : gmap PeerID Peer) : list Peer :=
  (map_to_list ps).*2.

Definition PeerSet_Range (f : Peer -> M bool) : M unit :=
  let* s := get_sw in
  let snapshot := PeerSet_List (sw_peers s) in
  fan_out f (length snapshot) snapshot.

(** ** The methods of the switch *)

(** [NewSwitch]: the switch as constructed, in a given outside world. *)
Definition NewSwitch (cfg : Config) (net : Net) : World :=
  let cfg :=
    if decide (TickerTimeSec cfg = 0%Z)
    then mkConfig (Address cfg) (BootStrap cfg) (PrivateKey cfg) (PublicKey cfg)
                  defaultTickerTimeSec
    else cfg in
  mkWorld (mkSwitch cfg None None None NewPeerSet ∅) net
          [ELog LInfo "new a switch succ, cfg: %+v" []].

Definition AddReactor (mo : Module) (f : Reactor) : M (option Error) :=
  let* s := get_sw in
  match sw_reactor s !! mo with
  | Some _ => ret (Some ErrModuleRegistered)
  | None =>
      upd_sw (with_reactor (<[mo := f]> (sw_reactor s))) ;;
      log_Info "[module %s] registered" [] ;;
      ret None
  end.

Definition Broadcast (chID : Z) (msgBytes : bytes) : M unit :=
  let f := fun p => Peer_Send p chID msgBytes in
  PeerSet_Range f ;;
  log_Info "Broadcast completed @ Broadcast, chID: %d, msgBytes: %X" [].

Definition Send (pr : string) (chID : Z) (msgBytes : bytes) : M (option Error) :=
  let '(id, err) := peer_Decode pr in
  match err with
  | Some _ => log_Error "fail to convert string to id @ Send, err: %v, peer_id: %v, chID: %d, msgBytes: %X" [pr]
  | None => ret tt
  end ;;
  let* found := PeerSet_Find id in
  match found with
  | inl err =>
      log_Error "fail to find peer @ Send, err: %v, peer_id: %v, chID: %d, msgBytes: %X" [pr] ;;
      ret (Some err)
  | inr p =>
      let* ok := Peer_Send p chID msgBytes in
      if negb ok then ret (Some ErrSendFailed) else ret None
  end.

Definition GetP2PID (peerID : string) : string * option Error := (peerID, None).

Definition genPeerMultiID (id : PeerID) : M string :=
  let* h := the_host in
  let* peer := Peerstore_PeerInfo h id in
  match ai_Addrs peer with
  | [] => ret ""
  | a :: _ => ret (a +:+ "/p2p/" +:+ ai_ID peer)
  end.

(** The admission check shared by both paths: is there an entry for [id]
    whose [Validate] returns nil? *)
Definition has_valid_peer (id : PeerID) : M bool :=
  let* found := PeerSet_Find id in
  match found with
  | inr old =>
      let* err := Peer_Validate old in
      match err with None => ret true | Some _ => ret false end
  | inl _ => ret false
  end.

Definition dialPeersAsync (id : PeerID) : M (option Error) :=
  let* keep := has_valid_peer id in
  if keep : bool then ret None else
  let* h := the_host in
  let* r := host_NewStream h id in
  match r with
  | inl err =>
      log_Error "host make newstream fail @ DialPeersAsync, peer_id: %s, err: %v" [id] ;;
      ret (Some err)
  | inr stream =>
      let* rawPeer := Peerstore_PeerInfo h id in
      let* s := get_sw in
      let* r := NewDefaultPeer rawPeer stream (sw_reactor s) in
      match r with
      | inl err =>
          log_Error "new remote peer fail @ DialPeersAsync, peer_id: %s, err: %v" [id] ;;
          stream_Close stream ;;
          (let* d := the_kdht in RoutingTable_RemovePeer d id) ;;
          ret (Some err)
      | inr peer =>
          PeerSet_Add peer ;;
          Peer_Start peer ;;
          ret None
      end
  end.

Definition connect (multiAddr : string) : M (option Error) :=
  match ipfsaddr_ParseString multiAddr with
  | inl err =>
      log_Error "parse string failed @ p2p.acceptRoutine, multi_peer: %s, err: %v" [multiAddr] ;;
      ret (Some err)
  | inr peerAddr =>
  match peer_AddrInfoFromP2pAddr peerAddr with
  | inl err =>
      log_Error "add addrinfo failed @ p2p.acceptRoutine, multi_peer: %s, err: %v" [multiAddr] ;;
      ret (Some err)
  | inr addrInfo =>
      let* h := the_host in
      let* e := host_Connect h addrInfo in
      match e with
      | Some err =>
          log_Error "host connect failed @ p2p.acceptRoutine, peer_id: %s, err: %v" [ai_ID addrInfo] ;;
          ret (Some err)
      | None =>
          let* e := dialPeersAsync (ai_ID addrInfo) in
          match e with
          | Some _ => log_Error "dial fail @ p2p.acceptRoutine peer_id: %s, err: %v" [ai_ID addrInfo]
          | None => ret tt
          end ;;
          ret None
      end
  end end.

Definition handleStream (netStream : Stream) : M unit :=
  let remote := x_RemotePeer X netStream in
  let* keep := has_valid_peer remote in
  if keep : bool then log_Error "use an old one @ handleStream, peer_id: %s" [remote] else
  let* h := the_host in
  let* p := Peerstore_PeerInfo h remote in
  let* s := get_sw in
  let* r := NewDefaultPeer p netStream (sw_reactor s) in
  match r with
  | inl err =>
      log_Error "new remote peer fail @ handleStream, peer_id: %s, err: %v" [remote]
  | inr peer =>
      PeerSet_Add peer ;;
      Peer_Start peer ;;
      log_Info "build stream success from a new remote peer @ handleStream, peer_id: %s" [remote]
  end.

(** ** Admission, one call at a time

    [handleStream] runs on a goroutine of its own for every inbound stream,
    next to the discovery routine that calls [dialPeersAsync].  Between
    two calls into the PeerSet or into the libraries another attempt may
    run.  The stages below cut both functions at those calls. *)
Inductive Attempt :=
| Inbound (netStream : Stream)    (* handleStream *)
| Outbound (id : PeerID).         (* dialPeersAsync *)

Definition attempt_id (a : Attempt) : PeerID :=
  match a with
  | Inbound netStream => x_RemotePeer X netStream
  | Outbound id => id
  end.

Inductive Stage :=
| Finding (a : Attempt)                          (* sw.peers.Find *)
| Validating (a : Attempt) (old : Peer)          (* old.Validate *)
| Opening (id : PeerID)                          (* sw.host.NewStream *)
| Constructing (a : Attempt) (stream : Stream)   (* PeerInfo, NewDefaultPeer *)
| Cleaning (id : PeerID) (stream : Stream)       (* stream.Close, RemovePeer *)
| Adding (a : Attempt) (peer : Peer)             (* sw.peers.Add *)
| Starting (a : Attempt) (peer : Peer)           (* peer.Start *)
| Returned.

(** Where an attempt goes when the check finds no valid entry. *)
Definition proceed (a : Attempt) : Stage :=
  match a with
  | Inbound netStream => Constructing a netStream
  | Outbound id => Opening id
  end.

Definition step (st : Stage) : M Stage :=
  match st with
  | Finding a =>
      let* found := PeerSet_Find (attempt_id a) in
      match found with
      | inr old => ret (Validating a old)
      | inl _ => ret (proceed a)
      end
  | Validating a old =>
      let* err := Peer_Validate old in
      match err with
      | None =>
          match a with
          | Inbound _ =>
              log_Error "use an old one @ handleStream, peer_id: %s" [attempt_id a]
          | Outbound _ => ret tt
          end ;;
          ret Returned
      | Some _ => ret (proceed a)
      end
  | Opening id =>
      let* h := the_host in
      let* r := host_NewStream h id in
      match r with
      | inl _ =>
          log_Error "host make newstream fail @ DialPeersAsync, peer_id: %s, err: %v" [id] ;;
          ret Returned
      | inr stream => ret (Constructing (Outbound id) stream)
      end
  | Constructing a stream =>
      let* h := the_host in
      let* info := Peerstore_PeerInfo h (attempt_id a) in
      let* s := get_sw in
      let* r := NewDefaultPeer info stream (sw_reactor s) in
      match r with
      | inl _ =>
          match a with
          | Inbound _ =>
              log_Error "new remote peer fail @ handleStream, peer_id: %s, err: %v"
                        [attempt_id a] ;;
              ret Returned
          | Outbound id =>
              log_Error "new remote peer fail @ DialPeersAsync, peer_id: %s, err: %v" [id] ;;
              ret (Cleaning id stream)
          end
      | inr peer => ret (Adding a peer)
      end
  | Cleaning id stream =>
      stream_Close stream ;;
      (let* d := the_kdht in RoutingTable_RemovePeer d id) ;;
      ret Returned
  | Adding a peer =>
      PeerSet_Add peer ;;
      ret (Starting a peer)
  | Starting a peer =>
      Peer_Start peer ;;
      match a with
      | Inbound _ =>
          log_Info "build stream success from a new remote peer @ handleStream, peer_id: %s"
                   [attempt_id a]
      | Outbound _ => ret tt
      end ;;
      ret Returned
  | Returned => ret Returned
  end.

(** One attempt on its own, for [n] steps. *)
Fixpoint run_attempt (n : nat) (st : Stage) : M unit :=
  match n with
  | O => ret tt
  | S n' => let* st' := step st in run_attempt n' st'
  end.

(** A pool of attempts; the schedule names the attempt that moves next. *)
Fixpoint interleave (schedule : list nat) (pool : list Stage) : M (list Stage) :=
  match schedule with
  | [] => ret pool
  | i :: rest =>
      match pool !! i with
      | None => interleave rest pool
      | Some st =>
          let* st' := step st in
          interleave rest (<[i := st']> pool)
      end
  end.

(** [for _, x := range l { body }] *)
Fixpoint for_range {A} (l : list A) (body : A -> M unit) : M unit :=
  match l with
  | [] => ret tt
  | a :: l' => body a ;; for_range l' body
  end.

(** The body of the loop over [sw.cfg.BootStrap]. *)
Definition bootstrap_try (peerMutltiID : string) : M unit :=
  let* e := connect peerMutltiID in
  match e with
  | Some _ => ret tt
  | None => log_Info "build stream success @ bootstrap remote_peer: %s" [peerMutltiID]
  end.

(** One pass from the label [retry] to the test: the connects, then the
    peers of the routing table. *)
Definition bootstrap_round : M (list PeerID) :=
  let* s := get_sw in
  for_range (BootStrap (sw_cfg s)) bootstrap_try ;;
  let* d := the_kdht in
  RoutingTable_ListPeers d.

(** From the label [retry] on; [fuel] bounds the number of passes. *)
Fixpoint bootstrap_retry (fuel : nat) : M (option Error) :=
  match fuel with
  | O => spin
  | S fuel' =>
      let* s := get_sw in
      for_range (BootStrap (sw_cfg s)) bootstrap_try ;;
      let* d := the_kdht in
      let* l := RoutingTable_ListPeers d in
      if decide (length l = 0) then bootstrap_retry fuel' else ret None
  end.

Definition bootstrap (fuel : nat) : M (option Error) :=
  let* d := the_kdht in
  let* e := kdht_Bootstrap d in
  match e with
  | Some err =>
      log_Error "kdht bootstrap failed @ p2p.bootstrap, err: %v" [] ;;
      ret (Some err)
  | None => bootstrap_retry fuel
  end.

(** One tick of [acceptRoutine]: the body of [case <-sw.timer.C]. *)
Definition acceptTick : M unit :=
  let* d := the_kdht in
  let* l := RoutingTable_ListPeers d in
  for_range l (fun peerID =>
    let* found := PeerSet_Find peerID in
    match found with
    | inr _ => ret tt
    | inl _ =>
        let* multiAddr := genPeerMultiID peerID in
        if decide (multiAddr = "") then ret tt else
        let* e := connect multiAddr in
        match e with
        | Some _ => ret tt
        | None => log_Info "connect peer from router table @ p2p.acceptRoutine, peer_id: %s" [peerID]
        end
    end).

Definition Start (fuel : nat) : M (option Error) :=
  let* s := get_sw in
  match x_DecodeString X (PrivateKey (sw_cfg s)) with
  | inl c => ret (Some (ExtErr Base64Decode c))
  | inr privData =>
  match x_UnmarshalPrivateKey X privData with
  | inl c => ret (Some (ExtErr UnmarshalKey c))
  | inr priv =>
  let* r := libp2p_New (Address (sw_cfg s)) priv in
  match r with
  | inl err =>
      log_Error "new libp2p host failed @ p2p.Start, err: %v" [] ;;
      ret (Some err)
  | inr host =>
      upd_sw (with_host (Some host)) ;;
      host_SetStreamHandler host protocolPrefix ;;
      (* the error of NewMultiaddr is dropped by the source *)
      let hostAddr := "/p2p/" +:+ x_HostID X host in
      let* addrs := read (x_Addrs X host) in
      match addrs with
      | [] => panic
      | addr :: _ =>
          let fullAddr := addr +:+ hostAddr in
          upd_sw (with_id (Some fullAddr)) ;;
          log_Info "new p2pnode @ p2p.Start host's multiaddr: %s" [fullAddr] ;;
          let* r := dht_New host in
          match r with
          | inl err =>
              upd_sw (with_kdht None) ;;
              log_Error "new dht host failed @ p2p.Start, err: %v" [] ;;
              ret (Some err)
          | inr d =>
              upd_sw (with_kdht (Some d)) ;;
              let* e := bootstrap fuel in
              match e with
              | Some err =>
                  log_Error "bootstrap failed @ p2p.Start, err: %v" [] ;;
                  ret (Some err)
              | None =>
                  emit ESpawnAcceptRoutine ;;
                  ret None
              end
          end
      end
  end end end.

End Switch.

Arguments Done {Module _ _ Reactor Net A} a w.
Arguments Panic {Module _ _ Reactor Net A} w.
Arguments Spin {Module _ _ Reactor Net A}.

(** Every call of the API and every event the switch reacts to, as one
    step on the world; between two of them the outside world may change
    in any way. *)
Inductive Op {Module Reactor Net : Type} :=
| OpAddReactor (mo : Module) (f : Reactor)
| OpStart (fuel : nat)
| OpBroadcast (chID : Z) (msgBytes : list Byte.byte)
| OpSend (pr : string) (chID : Z) (msgBytes : list Byte.byte)
| OpInbound (netStream : Stream)      (* libp2p hands a stream to handleStream *)
| OpDial (id : string)                (* dialPeersAsync *)
| OpConnect (multiAddr : string)
| OpTick                              (* the discovery timer fires *)
| OpOutside (f : Net -> Net).         (* the outside world moves on *)
Arguments Op : clear implicits.

Section Observations.
Context {Module : Type} `{Countable Module} {Reactor Net : Type}.
Variable X : @Externals Module _ _ Reactor Net.
Implicit Types w : @World Module _ _ Reactor Net.

Definition run_op (op : Op Module Reactor Net) : M unit :=
  match op with
  | OpAddReactor mo f => bind (AddReactor mo f) (fun _ => ret tt)
  | OpStart fuel => bind (Start X fuel) (fun _ => ret tt)
  | OpBroadcast chID msg => Broadcast X chID msg
  | OpSend pr chID msg => bind (Send X pr chID msg) (fun _ => ret tt)
  | OpInbound s => handleStream X s
  | OpDial id => bind (dialPeersAsync X id) (fun _ => ret tt)
  | OpConnect m => bind (connect X m) (fun _ => ret tt)
  | OpTick => acceptTick X
  | OpOutside f => act f
  end.

Definition run_ops (ops : list (Op Module Reactor Net)) : M unit :=
  for_range ops run_op.

(** The entry for [id], if [Validate] accepts it. *)
Definition valid_entry w (id : PeerID) : option Peer :=
  match sw_peers (w_sw w) !! id with
  | Some old =>
      match x_Validate X old (w_ext w) with
      | None => Some old
      | Some _ => None
      end
  | None => None
  end.

(** The peers of identity [id] in the set that [Validate] accepts. *)
Definition live_peers w (id : PeerID) : list Peer :=
  filter (fun p => peer_ID p = id /\ x_Validate X p (w_ext w) = None)
         (PeerSet_List (sw_peers (w_sw w))).

(** The world a call ends in, whatever it returned. *)
Definition forget {A} (out : @Outcome Module _ _ Reactor Net A)
  : @Outcome Module _ _ Reactor Net unit :=
  match out with
  | Done _ w => Done tt w
  | Panic w => Panic w
  | Spin => Spin
  end.

Definition new_events w w' : list Event :=
  drop (length (w_trace w)) (w_trace w').

(** A call ended in [r] without touching the switch and without an
    error-level line in the log. *)
Definition discarded_silently {A} (r : A) w (out : Outcome A) : Prop :=
  exists w', out = Done r w' /\ w_sw w' = w_sw w /\
             filter is_error_log (new_events w w') = [].

(** The identity [Send] looks up for the string [pr]: the decoded one, or
    the zero identity when decoding fails. *)
Definition Send_target (pr : string) : PeerID := fst (peer_Decode X pr).

(** What [Send] returns once the lookup is done. *)
Definition Send_result w (pr : string) (chID : Z) (msgBytes : bytes)
  : option Error :=
  match sw_peers (w_sw w) !! Send_target pr with
  | None => Some ErrPeerNotFound
  | Some p =>
      if fst (x_Send X p chID msgBytes (w_ext w)) then None
      else Some ErrSendFailed
  end.

(** [retries k w w']: from [w], [k] passes found the routing table empty
    and the next one found a peer in it, in [w']. *)
Inductive retries : nat -> World -> World -> Prop :=
| retries_stop w l w' :
    bootstrap_round X w = Done l w' -> l <> [] -> retries 0 w w'
| retries_again k w w1 w' :
    bootstrap_round X w = Done [] w1 -> retries k w1 w' ->
    retries (S k) w w'.

(** A bootstrap candidate that cannot be reached while the network stays
    within [I]: its address does not parse, or carries no address info, or
    the host fails to connect to it. *)
Definition unreachable (I : Net -> Prop) (h : Host) (m : string) : Prop :=
  match x_ParseString X m with
  | inl _ => True
  | inr pa =>
      match x_AddrInfoFromP2pAddr X pa with
      | inl _ => True
      | inr ai =>
          forall n, I n -> exists c n', x_Connect X h ai n = (Some c, n') /\ I n'
      end
  end.

(** While the network stays within [I] the routing table lists no peer. *)
Definition table_stays_empty (I : Net -> Prop) (d : DHT) : Prop :=
  forall n, I n -> exists n', x_ListPeers X d n = ([], n') /\ I n'.

(** The errors [Start] can return. *)
Definition startup_origin (o : Origin) : bool :=
  match o with
  | Base64Decode | UnmarshalKey | NewHost | NewDHT | DHTBootstrap => true
  | _ => false
  end.

(** The world [Start] is in once the host is up and [dht.New] has
    returned; with [Some d] it is the one [bootstrap] is called in. *)
Definition Start_world w (h : Host) (d : option DHT) (addr : string) (n : Net)
  : World :=
  let full := addr +:+ "/p2p/" +:+ x_HostID X h in
  mkWorld (with_kdht d (with_id (Some full) (with_host (Some h) (w_sw w))))
          n
          (w_trace w ++
             [ENewHost (Address (sw_cfg (w_sw w)));
              ESetStreamHandler h protocolPrefix;
              ELog LInfo "new p2pnode @ p2p.Start host's multiaddr: %s" [full];
              ENewDHT h]).

(** The reactor registered for a module. *)
Definition registered w (mo : Module) : option Reactor := sw_reactor (w_sw w) !! mo.

(** Every peer sits under its own identity. *)
Definition keyed (ps : gmap string Peer) : Prop :=
  forall k p, ps !! k = Some p -> peer_ID p = k.

(** A computation preserves the keying if every world it returns in is
    keyed when the one it started in was. *)
Definition preserves {A} (m : @M Module _ _ Reactor Net A) : Prop :=
  forall w, keyed (sw_peers (w_sw w)) ->
    match m w with
    | Done _ w' => keyed (sw_peers (w_sw w'))
    | Panic _ => True
    | Spin => True
    end.

(** Log lines and events by name. *)
Definition convert_failed (pr : string) : Event :=
  ELog LError
    "fail to convert string to id @ Send, err: %v, peer_id: %v, chID: %d, msgBytes: %X"
    [pr].
Definition find_failed (pr : string) : Event :=
  ELog LError
    "fail to find peer @ Send, err: %v, peer_id: %v, chID: %d, msgBytes: %X"
    [pr].

(** The events of one [Send]. *)
Definition Send_events w (pr : string) (chID : Z) (msg : bytes) : list Event :=
  match x_Decode X pr with inl _ => [convert_failed pr] | inr _ => [] end ++
  match sw_peers (w_sw w) !! Send_target pr with
  | None => [find_failed pr]
  | Some p => [EPeerSend p chID msg (fst (x_Send X p chID msg (w_ext w)))]
  end.

Definition Send_ext w (pr : string) (chID : Z) (msg : bytes) : Net :=
  match sw_peers (w_sw w) !! Send_target pr with
  | None => w_ext w
  | Some p => snd (x_Send X p chID msg (w_ext w))
  end.

Definition send_event (chID : Z) (msg : bytes) (a : Peer * bool) : Event :=
  EPeerSend (fst a) chID msg (snd a).

Definition broadcast_done : Event :=
  ELog LInfo "Broadcast completed @ Broadcast, chID: %d, msgBytes: %X" [].

Definition dial_failed (ai : AddrInfo) : Event :=
  ELog LError "dial fail @ p2p.acceptRoutine peer_id: %s, err: %v" [ai_ID ai].
Definition build_stream_success (m : string) : Event :=
  ELog LInfo "build stream success @ bootstrap remote_peer: %s" [m].

Definition log_to w (evs : list Event) : World :=
  mkWorld (w_sw w) (w_ext w) (w_trace w ++ evs).

Definition new_host_failed : Event :=
  ELog LError "new libp2p host failed @ p2p.Start, err: %v" [].
Definition new_dht_failed : Event :=
  ELog LError "new dht host failed @ p2p.Start, err: %v" [].
Definition bootstrap_failed : Event :=
  ELog LError "bootstrap failed @ p2p.Start, err: %v" [].

(** The two admission paths. *)
Definition is_admission (op : Op Module Reactor Net) : bool :=
  match op with OpInbound _ | OpDial _ => true | _ => false end.

End Observations.

(** ** A small network to run the switch in *)

Module Demo.

Record net := mkNet {
  routing : list string;   (* identities in the routing table *)
  online : list string;    (* identities that answer connects, streams, sends *)
  refused : list string;   (* identities whose peer cannot be constructed *)
  dead : list nat;         (* streams that are no longer usable *)
  streams : nat;           (* handle of the next stream *)
  dht_down : bool          (* the DHT client cannot be constructed *)
}.

Definition names : list string := ["QmAlice"; "QmBob"; "QmCarol"].

Definition is_in (x : string) (l : list string) : bool := bool_decide (x ∈ l).

Definition sid (s : Stream) : nat := match s with StreamHandle n => n end.

Definition with_routing (r : list string) (n : net) : net :=
  mkNet r (online n) (refused n) (dead n) (streams n) (dht_down n).

Definition ext : @Externals string _ _ nat net := {|
  x_DecodeString := fun s =>
    if String.eqb s "" then inl 1%nat else inr (String.list_byte_of_string s);
  x_UnmarshalPrivateKey := fun b =>
    match b with
    | [_] => inl 9%nat
    | _ => inr (PrivKeyOf b)
    end;
  x_New := fun addr _ n =>
    if String.eqb addr "" then (inl 2%nat, n) else (inr (HostHandle 0), n);
  x_SetStreamHandler := fun _ n => n;
  x_HostID := fun _ => "QmSelf";
  x_Addrs := fun _ _ => ["/ip4/127.0.0.1/tcp/30001"];
  x_Connect := fun _ ai n =>
    if is_in (ai_ID ai) (online n)
    then (None, with_routing (ai_ID ai :: routing n) n)
    else (Some 3%nat, n);
  x_NewStream := fun _ id n =>
    if is_in id (online n)
    then (inr (StreamHandle (streams n)),
          mkNet (routing n) (online n) (refused n) (dead n) (S (streams n))
                (dht_down n))
    else (inl 4%nat, n);
  x_PeerstoreAddrs := fun _ id _ => ["/ip4/127.0.0.1/tcp/30002"];
  x_RemotePeer := fun s => nth (sid s) names "QmEve";
  x_StreamClose := fun s n =>
    mkNet (routing n) (online n) (refused n) (sid s :: dead n) (streams n)
          (dht_down n);
  x_NewDHT := fun _ n =>
    if dht_down n then (inl 10%nat, n) else (inr (DHTHandle 0), n);
  x_DHTBootstrap := fun _ n => (None, n);
  x_ListPeers := fun _ n => (routing n, n);
  x_RemovePeer := fun _ id n =>
    with_routing (filter (fun x => x ≠ id) (routing n)) n;
  x_ParseString := fun s => if String.eqb s "" then inl 5%nat else inr s;
  x_AddrInfoFromP2pAddr := fun m => inr (mkAddrInfo m [m]);
  x_Decode := fun s => if String.prefix "Qm" s then inr s else inl 6%nat;
  x_NewDefaultPeer := fun info _ _ n =>
    if is_in (ai_ID info) (refused n) then Some 7%nat else None;
  x_Validate := fun p n =>
    if bool_decide (sid (peer_stream p) ∈ dead n) then Some 8%nat else None;
  x_Send := fun p _ _ n => (is_in (peer_ID p) (online n), n);
  x_Start := fun _ n => n;
  x_Sched := fun _ _ => 0%nat
|}.

Definition cfg (boot : list string) : Config :=
  mkConfig "/ip4/127.0.0.1/tcp/30001" boot "a2V5" "" 0.

(** A switch that has been started, with the given peers. *)
Definition started (boot : list string) (ps : gmap string Peer) (n : net)
  : @World string _ _ nat net :=
  mkWorld (mkSwitch (cfg boot) (Some "/ip4/127.0.0.1/tcp/30001/p2p/QmSelf")
                    (Some (HostHandle 0)) (Some (DHTHandle 0)) ps ∅) n [].

Definition alice : Peer := mkPeer "QmAlice" (StreamHandle 0).
Definition bob : Peer := mkPeer "QmBob" (StreamHandle 1).

Definition quiet : net := mkNet [] [] [] [] 2 false.
Definition lively : net :=
  mkNet [] ["QmAlice"; "QmBob"; "QmCarol"] [] [] 2 false.
Definition no_dht : net := mkNet [] [] [] [] 2 true.
(** Bob answers, but no peer can be constructed for him. *)
Definition refusing : net := mkNet ["QmBob"] ["QmBob"] ["QmBob"] [] 2 false.

(** Alice is connected over stream 0, which is usable. *)
Definition with_alice : @World string _ _ nat net :=
  started [] {[ "QmAlice" := alice ]} lively.

End Demo.

(** ** What the operations keep *)

Section Keeping.
Context {Module : Type} `{Countable Module} {Reactor Net : Type}.
Variable X : @Externals Module _ _ Reactor Net.
Implicit Types w : @World Module _ _ Reactor Net.

(** A computation keeps a property of the switch if every world it
    returns in has it when the world it started in had. *)
Definition keeps (P : @Switch Module _ _ Reactor -> Prop) {A}
    (m : @M Module _ _ Reactor Net A) : Prop :=
  forall w, P (w_sw w) ->
    match m w with
    | Done _ w' => P (w_sw w')
    | Panic _ => True
    | Spin => True
    end.

Definition is_AddReactor (op : Op Module Reactor Net) : bool :=
  match op with OpAddReactor _ _ => true | _ => false end.

(** The result [connect] returns, read off the library calls: the first of
    parse, address info and host connect that fails. *)
Definition connect_result w (h : Host) (m : string) : option Error :=
  match x_ParseString X m with
  | inl c => Some (ExtErr ParseAddr c)
  | inr pa =>
      match x_AddrInfoFromP2pAddr X pa with
      | inl c => Some (ExtErr AddrInfoOf c)
      | inr ai => tag_err HostConnect (fst (x_Connect X h ai (w_ext w)))
      end
  end.

Definition is_dial_event (e : Event) : bool :=
  match e with
  | ENewStream _ _ | ENewPeer _ _ | EPeerStart _ => true
  | _ => false
  end.

Definition is_discovery_event (e : Event) : bool :=
  match e with
  | ESpawnAcceptRoutine | EConnect _ _ => true
  | _ => false
  end.

Definition is_cleanup_event (e : Event) : bool :=
  match e with
  | EStreamClose _ | ERemovePeer _ _ => true
  | _ => false
  end.

End Keeping.

(** * libs/utils.go *)

Module libs.

(** ** GenRandomID *)

(** [int64] and [uint] arithmetic. *)
Definition wrap64 (z : Z) : Z := ((z + 2 ^ 63) mod 2 ^ 64 - 2 ^ 63)%Z.
Definition add64 (a b : Z) : Z := wrap64 (a + b).
Definition to_uint (z : Z) : Z := (z mod 2 ^ 64)%Z.
Definition to_uint64 (z : Z) : Z := (z mod 2 ^ 64)%Z.

(** The last line but one of [GenRandomID], on the clock reading and the
    four draws. *)
Definition randId (nano randNum1 randNum2 shift1 shift2 : Z) : Z :=
  Z.land
    (add64 (add64 (Z.shiftr randNum1 (to_uint shift1))
                  (Z.shiftr randNum2 (to_uint shift2)))
           (Z.shiftr nano 1))
    0x7FFFFFFFFFFFFFFF%Z.

Section GenRandomID.
(** [math/rand]: a generator, seeded, and its draws. *)
Variable Rand : Type.
Variable NewSource : Z -> Rand.
Variable Int63 : Rand -> Z * Rand.
Variable Intn : Z -> Rand -> Z * Rand.

(** [nano] is [time.Now().UnixNano()]. *)
Definition GenRandomID (nano : Z) : Z :=
  let r := NewSource nano in
  let '(randNum1, r) := Int63 r in
  let '(randNum2, r) := Int63 r in
  let '(n1, r) := Intn 16 r in
  let shift1 := add64 n1 2 in
  let '(n2, r) := Intn 8 r in
  let shift2 := add64 n2 1 in
  to_uint64 (randId nano randNum1 randNum2 shift1 shift2).

(** The four draws of one call, in the order the code makes them: the two
    numbers, then what [Intn(16)] and [Intn(8)] gave. *)
Definition draws (nano : Z) : Z * Z * Z * Z :=
  let r := NewSource nano in
  let '(randNum1, r) := Int63 r in
  let '(randNum2, r) := Int63 r in
  let '(n1, r) := Intn 16 r in
  let '(n2, r) := Intn 8 r in
  (randNum1, randNum2, n1, n2).

End GenRandomID.

(** ** GetSum *)

(** The digit of a value below 16: ['0'..'9'], then ['a'..'f']. *)
Definition hex_digit (n : N) : Ascii.ascii :=
  Ascii.ascii_of_N (if (n <? 10)%N then 48 + n else 87 + n)%N.

(** [%x] of one byte: two lower-case digits, the high one first. *)
Definition hex_byte (b : Byte.byte) : list Ascii.ascii :=
  let n := Byte.to_N b in
  [hex_digit (n / 16); hex_digit (n mod 16)].

(** [fmt.Sprintf("%x", bs)] *)
Definition hex (bs : list Byte.byte) : string :=
  String.string_of_list_ascii (concat (map hex_byte bs)).

Definition unhex_digit (c : Ascii.ascii) : option N :=
  let n := Ascii.N_of_ascii c in
  if (48 <=? n)%N && (n <=? 57)%N then Some (n - 48)%N
  else if (97 <=? n)%N && (n <=? 102)%N then Some (n - 87)%N
  else None.

(** Reading the digits back, two at a time. *)
Fixpoint unhex_list (cs : list Ascii.ascii) : option (list Byte.byte) :=
  match cs with
  | [] => Some []
  | hi :: lo :: rest =>
      match unhex_digit hi, unhex_digit lo, unhex_list rest with
      | Some h, Some l, Some bs =>
          match Byte.of_N (16 * h + l) with
          | Some b => Some (b :: bs)
          | None => None
          end
      | _, _, _ => None
      end
  | [_] => None
  end.

Definition unhex (s : string) : option (list Byte.byte) :=
  unhex_list (String.list_ascii_of_string s).

Section GetSum.
(** [crypto/sha256]: the digest of the bytes written. *)
Variable sha256 : list Byte.byte -> list Byte.byte.

Definition GetSum (b : list Byte.byte) : string := hex (sha256 b).

End GetSum.

(** ** The root directory *)

Section RootDir.
(** What [GetCurExecDir] returns: the directory of [os.Args[0]] made
    absolute, or the empty string when that fails (the error is dropped). *)
Variable execDir : string.

(** Both functions on the package variable [envCfg]. *)
Definition SetRootDir (path : string) (envCfg : string) : string :=
  if (String.length envCfg <=? 0)%nat then path else envCfg.

Definition GetCurRootDir (envCfg : string) : string * string :=
  if (String.length envCfg <=? 0)%nat then (execDir, execDir)
  else (envCfg, envCfg).

Inductive RootCall :=
| CallSet (path : string)
| CallGet.

(** A sequence of calls: the directories the [GetCurRootDir]s returned,
    and [envCfg] at the end. *)
Fixpoint run_root (calls : list RootCall) (envCfg : string) : list string * string :=
  match calls with
  | [] => ([], envCfg)
  | CallSet path :: rest => run_root rest (SetRootDir path envCfg)
  | CallGet :: rest =>
      let '(dir, envCfg) := GetCurRootDir envCfg in
      let '(dirs, envCfg) := run_root rest envCfg in
      (dir :: dirs, envCfg)
  end.

Definition is_get (c : RootCall) : bool :=
  match c with CallGet => true | CallSet _ => false end.

(** The value a call fixes [envCfg] to, if it is not empty. *)
Definition fixes (c : RootCall) : option string :=
  match c with
  | CallSet path => if (String.length path <=? 0)%nat then None else Some path
  | CallGet => if (String.length execDir <=? 0)%nat then None else Some execDir
  end.

End RootDir.

End libs.

(** ** More of the small network *)

Module Demo2.

(** The small network, with a host that has no listen address. *)
Definition ext_no_addr : @Externals string _ _ nat Demo.net :=
  let X := Demo.ext in
  mkExternals (x_DecodeString X) (x_UnmarshalPrivateKey X) (x_New X)
    (x_SetStreamHandler X) (x_HostID X) (fun _ _ => []) (x_Connect X)
    (x_NewStream X) (x_PeerstoreAddrs X) (x_RemotePeer X) (x_StreamClose X)
    (x_NewDHT X) (x_DHTBootstrap X) (x_ListPeers X) (x_RemovePeer X)
    (x_ParseString X) (x_AddrInfoFromP2pAddr X) (x_Decode X)
    (x_NewDefaultPeer X) (x_Validate X) (x_Send X) (x_Start X) (x_Sched X).

(** Alice answers, but no peer can be constructed for her. *)
Definition refusing_alice : Demo.net :=
  Demo.mkNet [] ["QmAlice"] ["QmAlice"] [] 2 false.

(** Alice is in the routing table and in the set, over a dead stream. *)
Definition stale_alice : @World string _ _ nat Demo.net :=
  Demo.started [] {[ "QmAlice" := Demo.alice ]}
    (Demo.mkNet ["QmAlice"] ["QmAlice"] [] [0%nat] 2 false).

(** A generator that counts. *)
Definition NewSource (seed : Z) : Z := seed.
Definition Int63 (g : Z) : Z * Z := ((g * 6364136223846793005) mod 2 ^ 63, g + 1)%Z.
Definition Intn (n : Z) (g : Z) : Z * Z := (g mod n, g + 1)%Z.

Definition clock : Z := 1700000000000000000%Z.

End Demo2.

(** * The reactor table *)

Section ReactorTable.
Context {Module : Type} `{Countable Module} {Reactor Net : Type}.
Implicit Types (w : @World Module _ _ Reactor Net) (mo : Module) (f g : Reactor).

Lemma AddReactor_fresh w mo f :
  registered w mo = None ->
  AddReactor mo f w =
    Done None (mkWorld (with_reactor (<[mo := f]> (sw_reactor (w_sw w))) (w_sw w))
                       (w_ext w)
                       (w_trace w ++ [ELog LInfo "[module %s] registered" []])).
Proof.
  unfold registered, AddReactor, bind, get_sw. intros ->. reflexivity.
Qed.

Lemma AddReactor_taken w mo f :
  is_Some (registered w mo) ->
  AddReactor mo f w = Done (Some ErrModuleRegistered) w.
Proof.
  unfold registered, AddReactor, bind, get_sw. intros [f0 ->]. reflexivity.
Qed.

(** C6: the first [AddReactor] for a module records the reactor and returns
    nil; a second call for the same module returns an error and leaves the
    table, with the first registration in it, as it was. *)
Theorem AddReactor_twice w mo f g :
  match registered w mo with
  | None =>
      exists w1,
        AddReactor mo f w = Done None w1 /\
        registered w1 mo = Some f /\
        sw_reactor (w_sw w1) = <[mo := f]> (sw_reactor (w_sw w)) /\
        AddReactor mo g w1 = Done (Some ErrModuleRegistered) w1
  | Some f0 =>
      AddReactor mo f w = Done (Some ErrModuleRegistered) w /\
      AddReactor mo g w = Done (Some ErrModuleRegistered) w
  end.
Proof.
  destruct (registered w mo) as [f0|] eqn:E.
  - split; apply AddReactor_taken; rewrite E; eauto.
  - eexists. split; [apply AddReactor_fresh, E|].
    assert (R : forall h, registered
      (mkWorld (with_reactor (<[mo := h]> (sw_reactor (w_sw w))) (w_sw w))
               (w_ext w)
               (w_trace w ++ [ELog LInfo "[module %s] registered" []])) mo = Some h).
    { intros h. unfold registered. simpl. apply lookup_insert_eq. }
    split; [apply R|]. split; [reflexivity|].
    apply AddReactor_taken. rewrite R. eauto.
Qed.

End ReactorTable.

(** * Peer admission *)

Section Admission.
Context {Module : Type} `{Countable Module} {Reactor Net : Type}.
Variable X : @Externals Module _ _ Reactor Net.
Implicit Types w : @World Module _ _ Reactor Net.
Implicit Types (id : string) (old : Peer) (s : Stream).

Local Abbreviation preserves := (@preserves Module _ _ Reactor Net _).

Lemma new_events_app w sw' n' (evs : list Event) :
  new_events w (mkWorld sw' n' (w_trace w ++ evs)) = evs.
Proof. unfold new_events. simpl. by rewrite drop_app_length. Qed.

Lemma has_valid_peer_run w id :
  has_valid_peer X id w = Done (match valid_entry X w id with Some _ => true | None => false end) w.
Proof.
  unfold has_valid_peer, valid_entry, PeerSet_Find, Peer_Validate, bind, get_sw, read, ret.
  destruct (sw_peers (w_sw w) !! id) as [old|]; simpl; [|done].
  by destruct (x_Validate X old (w_ext w)).
Qed.

(** The outbound path with a valid entry in place: nothing happens. *)
Lemma dialPeersAsync_keep w id old :
  valid_entry X w id = Some old ->
  dialPeersAsync X id w = Done None w.
Proof.
  intros Hv. unfold dialPeersAsync, bind at 1.
  by rewrite has_valid_peer_run, Hv.
Qed.

(** The inbound path with a valid entry in place: one line in the log. *)
Lemma handleStream_keep w s old :
  valid_entry X w (x_RemotePeer X s) = Some old ->
  handleStream X s w =
    Done tt (mkWorld (w_sw w) (w_ext w)
      (w_trace w ++ [ELog LError "use an old one @ handleStream, peer_id: %s"
                          [x_RemotePeer X s]])).
Proof.
  intros Hv. unfold handleStream, bind at 1.
  by rewrite has_valid_peer_run, Hv.
Qed.

(** The outbound path when the peer cannot be constructed. *)
Lemma dialPeersAsync_NewPeer_fails w id h d s n1 c :
  sw_host (w_sw w) = Some h ->
  sw_kdht (w_sw w) = Some d ->
  valid_entry X w id = None ->
  x_NewStream X h id (w_ext w) = (inr s, n1) ->
  x_NewDefaultPeer X (mkAddrInfo id (x_PeerstoreAddrs X h id n1)) s
                   (sw_reactor (w_sw w)) n1 = Some c ->
  dialPeersAsync X id w =
    Done (Some (ExtErr NewPeer c))
         (mkWorld (w_sw w) (x_RemovePeer X d id (x_StreamClose X s n1))
            (w_trace w ++
              [ENewStream h id;
               ELog LError "new remote peer fail @ DialPeersAsync, peer_id: %s, err: %v" [id];
               EStreamClose s;
               ERemovePeer d id])).
Proof.
  intros Hh Hd Hv Hs Hp. unfold dialPeersAsync, bind at 1.
  rewrite has_valid_peer_run, Hv.
  unfold the_host, the_kdht, host_NewStream, Peerstore_PeerInfo, NewDefaultPeer,
    stream_Close, RoutingTable_RemovePeer, log_Error, emit, call, act, read,
    get_sw, bind, ret.
  simpl. rewrite Hh, Hs. simpl. rewrite Hp. simpl. rewrite Hd.
  simpl. by rewrite <- !app_assoc.
Qed.

(** ** The set stays keyed by identity *)

Lemma keyed_empty : keyed ∅.
Proof. intros k p. by rewrite lookup_empty. Qed.

Lemma keyed_insert ps p : keyed ps -> keyed (<[peer_ID p := p]> ps).
Proof.
  intros Hk k q. rewrite lookup_insert. case_decide; [naive_solver|apply Hk].
Qed.

(** A keyed set lists at most one peer per identity. *)
Lemma keyed_at_most_one ps id (Q : Peer -> Prop) `{!forall p, Decision (Q p)} :
  keyed ps ->
  length (filter (fun p => peer_ID p = id /\ Q p) (PeerSet_List ps)) <= 1.
Proof.
  intros Hk. unfold PeerSet_List.
  assert (Hin : forall k p, (k, p) ∈ map_to_list ps -> peer_ID p = k).
  { intros k p Hkp. apply Hk. by apply elem_of_map_to_list. }
  pose proof (NoDup_fst_map_to_list ps) as Hnd.
  revert Hin Hnd. generalize (map_to_list ps). clear Hk.
  intros l. induction l as [|[k p] l IH]; intros Hin Hnd; [simpl; lia|].
  rewrite fmap_cons in Hnd. rewrite fmap_cons. cbn [fst snd] in *.
  apply NoDup_cons in Hnd as [Hk_l Hnd].
  assert (IHl := IH (fun k' p' Hm => Hin k' p' (list_elem_of_further _ _ _ Hm)) Hnd).
  rewrite filter_cons. case_decide as HP; [|done].
  destruct HP as [Hid _].
  assert (Hk_id : k = id) by (rewrite <- Hid; symmetry; apply Hin; left).
  assert (E : filter (fun p0 => peer_ID p0 = id /\ Q p0) l.*2 = []); [|by rewrite E].
  apply elem_of_nil_inv. intros q Hq.
  apply list_elem_of_filter in Hq as [[Hq_id _] Hq].
  apply list_elem_of_fmap in Hq as [[k' q'] [-> Hq]]. simpl in Hq_id.
  apply Hk_l. apply list_elem_of_fmap. exists (k', q'). split; [|done].
  simpl. rewrite Hk_id, <- Hq_id. apply Hin. by right.
Qed.

Lemma preserves_ret {A} (a : A) : preserves (ret a).
Proof. by intros w. Qed.

Lemma preserves_panic {A} : preserves (@panic _ _ _ _ _ A).
Proof. by intros w. Qed.

Lemma preserves_spin {A} : preserves (@spin _ _ _ _ _ A).
Proof. by intros w. Qed.

Lemma preserves_bind {A B} (m : M A) (k : A -> M B) :
  preserves m -> (forall a, preserves (k a)) -> preserves (bind m k).
Proof.
  intros Hm Hk w Hw. unfold bind. specialize (Hm w Hw).
  destruct (m w) as [a w'| |]; [|done..]. by apply Hk.
Qed.

Lemma preserves_get_sw : preserves get_sw.
Proof. by intros w. Qed.

Lemma preserves_emit e : preserves (emit e).
Proof. by intros w. Qed.

Lemma preserves_call {A} (f : Net -> A * Net) : preserves (call f).
Proof. intros w Hw. unfold call. by destruct (f (w_ext w)). Qed.

Lemma preserves_act (f : Net -> Net) : preserves (act f).
Proof. by intros w. Qed.

Lemma preserves_read {A} (f : Net -> A) : preserves (read f).
Proof. by intros w. Qed.

Lemma preserves_upd_sw (f : Switch -> Switch) :
  (forall st, sw_peers (f st) = sw_peers st) -> preserves (upd_sw f).
Proof. intros Hf w Hw. simpl. by rewrite Hf. Qed.

Lemma preserves_Add p : preserves (PeerSet_Add p).
Proof. intros w Hw. simpl. by apply keyed_insert. Qed.

Lemma preserves_for_range {A} (l : list A) (body : A -> M unit) :
  (forall a, preserves (body a)) -> preserves (for_range l body).
Proof.
  intros Hb. induction l as [|a l IH]; simpl.
  - apply preserves_ret.
  - apply preserves_bind; [apply Hb|]. intros _. apply IH.
Qed.

Lemma preserves_fan_out (f : Peer -> M bool) n (pending : list Peer) :
  (forall p, preserves (f p)) -> preserves (fan_out X f n pending).
Proof.
  intros Hf. revert pending. induction n as [|n IH]; intros pending; simpl.
  - apply preserves_ret.
  - apply preserves_bind; [apply preserves_read|]. intros i.
    destruct (pending !! i); [|apply preserves_ret].
    apply preserves_bind; [apply Hf|]. intros _. apply IH.
Qed.

Create HintDb switch discriminated.
#[local] Hint Unfold
  libp2p_New host_SetStreamHandler dht_New kdht_Bootstrap RoutingTable_ListPeers
  RoutingTable_RemovePeer host_Connect host_NewStream Peerstore_PeerInfo
  stream_Close NewDefaultPeer Peer_Validate Peer_Send Peer_Start PeerSet_Find
  PeerSet_Range the_host the_kdht log_Info log_Error
  AddReactor Broadcast Send genPeerMultiID has_valid_peer dialPeersAsync
  connect handleStream bootstrap_try bootstrap acceptTick Start : switch.

Ltac preserve :=
  repeat first
    [ progress intros
    | apply preserves_ret | apply preserves_panic | apply preserves_spin
    | apply preserves_bind
    | apply preserves_get_sw | apply preserves_emit | apply preserves_call
    | apply preserves_act | apply preserves_read | apply preserves_Add
    | apply preserves_upd_sw; reflexivity
    | apply preserves_for_range | apply preserves_fan_out
    | match goal with
      | |- preserves (match ?x with _ => _ end) => destruct x
      end
    | progress autounfold with switch ].

Lemma preserves_dialPeersAsync id : preserves (dialPeersAsync X id).
Proof. preserve. Qed.

Lemma preserves_handleStream s : preserves (handleStream X s).
Proof. preserve. Qed.

Lemma preserves_connect m : preserves (connect X m).
Proof. preserve. Qed.

Lemma preserves_bootstrap_retry fuel : preserves (bootstrap_retry X fuel).
Proof.
  induction fuel as [|fuel IH]; simpl; [apply preserves_spin|].
  preserve. apply IH.
Qed.

Lemma preserves_Start fuel : preserves (Start X fuel).
Proof. preserve. apply preserves_bootstrap_retry. Qed.

Lemma preserves_run_op op : preserves (run_op X op).
Proof.
  destruct op; simpl; preserve.
  apply preserves_bootstrap_retry.
Qed.

Lemma preserves_run_ops ops : preserves (run_ops X ops).
Proof. apply preserves_for_range, preserves_run_op. Qed.

(** ** What admission does to the set *)

Lemma valid_entry_lookup w id old :
  valid_entry X w id = Some old -> sw_peers (w_sw w) !! id = Some old.
Proof.
  unfold valid_entry. destruct (sw_peers (w_sw w) !! id) as [p|]; [|done].
  by destruct (x_Validate X p (w_ext w)); intros [= ->].
Qed.

Lemma dialPeersAsync_peers w id a w' :
  dialPeersAsync X id w = Done a w' ->
  sw_peers (w_sw w') = sw_peers (w_sw w) \/
  (valid_entry X w id = None /\
   exists s, sw_peers (w_sw w') = <[id := mkPeer id s]> (sw_peers (w_sw w))).
Proof.
  unfold dialPeersAsync, bind at 1. rewrite has_valid_peer_run.
  destruct (valid_entry X w id) as [old|] eqn:Hv; [by intros [= _ <-]; left|].
  autounfold with switch.
  unfold PeerSet_Add, emit, call, act, read, upd_sw, get_sw, bind, ret, panic.
  simpl. intros Hrun.
  repeat (case_match; simpl in *; simplify_eq); eauto.
Qed.

Lemma handleStream_peers w s w' :
  handleStream X s w = Done tt w' ->
  sw_peers (w_sw w') = sw_peers (w_sw w) \/
  (valid_entry X w (x_RemotePeer X s) = None /\
   sw_peers (w_sw w') =
     <[x_RemotePeer X s := mkPeer (x_RemotePeer X s) s]> (sw_peers (w_sw w))).
Proof.
  unfold handleStream, bind at 1. rewrite has_valid_peer_run.
  destruct (valid_entry X w (x_RemotePeer X s)) as [old|] eqn:Hv;
    [by intros [= <-]; left|].
  autounfold with switch.
  unfold PeerSet_Add, emit, call, act, read, upd_sw, get_sw, bind, ret, panic.
  simpl. intros Hrun.
  repeat (case_match; simpl in *; simplify_eq); eauto.
Qed.

(** An admission attempt never takes a valid entry out of the set. *)
Lemma admission_retains w id old op w' :
  is_admission op = true ->
  valid_entry X w id = Some old ->
  run_op X op w = Done tt w' ->
  sw_peers (w_sw w') !! id = Some old.
Proof.
  intros Hop Hv Hrun. pose proof (valid_entry_lookup _ _ _ Hv) as Hl.
  destruct op; try discriminate; simpl in Hrun.
  - apply handleStream_peers in Hrun as [-> | [Hnone ->]]; [done|].
    rewrite lookup_insert_ne; [done|]. intros <-. congruence.
  - unfold bind in Hrun.
    destruct (dialPeersAsync X id0 w) as [a w1| |] eqn:Hd; [|done..].
    injection Hrun as ->.
    apply dialPeersAsync_peers in Hd as [-> | [Hnone [s ->]]]; [done|].
    rewrite lookup_insert_ne; [done|]. intros <-. congruence.
Qed.

Lemma reachable_keyed cfg (net : Net) ops w :
  run_ops X ops (NewSwitch cfg net) = Done tt w -> keyed (sw_peers (w_sw w)).
Proof.
  intros Hrun. pose proof (preserves_run_ops ops (NewSwitch cfg net)) as Hp.
  rewrite Hrun in Hp. apply Hp. apply keyed_empty.
Qed.

(** ** Attempts that interleave *)

Lemma run_attempt_Returned n w : run_attempt X n Returned w = Done tt w.
Proof. induction n as [|n IH]; [done|]. simpl. unfold bind. simpl. apply IH. Qed.

(** Unfold the calls, then split on the innermost result not yet known,
    keeping the equation for when the same call shows up again. *)
Ltac split_innermost :=
  match goal with
  | H : ?x = _ |- context [match ?x with _ => _ end] => rewrite H
  | |- context [match ?x with _ => _ end] =>
      lazymatch x with
      | context [match _ with _ => _ end] => fail
      | _ => destruct x eqn:?
      end
  end.

Ltac stage_by_stage :=
  unfold dialPeersAsync, handleStream, has_valid_peer;
  repeat first
    [ progress unfold PeerSet_Find, Peer_Validate, the_host, the_kdht,
        host_NewStream, Peerstore_PeerInfo, NewDefaultPeer, stream_Close,
        RoutingTable_RemovePeer, PeerSet_Add, Peer_Start, log_Error, log_Info,
        emit, call, act, read, upd_sw, get_sw, bind, ret, panic
    | progress cbn [run_attempt step proceed attempt_id forget tag tag_err
                    fmap option_fmap option_map w_sw w_ext w_trace]
    | reflexivity
    | split_innermost ].

(** Left alone, an outbound attempt is [dialPeersAsync]. *)
Lemma run_attempt_Outbound w id :
  run_attempt X 6 (Finding (Outbound id)) w = forget (dialPeersAsync X id w).
Proof. stage_by_stage. Qed.

(** Left alone, an inbound attempt is [handleStream]. *)
Lemma run_attempt_Inbound w s :
  run_attempt X 6 (Finding (Inbound s)) w = forget (handleStream X s w).
Proof. stage_by_stage. Qed.

Lemma preserves_step st : preserves (step X st).
Proof. destruct st as [a|a old|id'|a stream|id' stream|a peer|[]|]; simpl; preserve. Qed.

Lemma preserves_interleave schedule pool : preserves (interleave X schedule pool).
Proof.
  revert pool. induction schedule as [|i rest IH]; intros pool; simpl.
  - apply preserves_ret.
  - destruct (pool !! i); [|apply IH].
    apply preserves_bind; [apply preserves_step|]. intros st'. apply IH.
Qed.

(** C1: both admission paths look the identity up before they create a
    peer; with a valid entry in place the outbound path returns at once and
    the inbound path only writes to the log, so that the entry stays.  As a
    consequence, in every world the switch reaches from [NewSwitch], the set
    lists at most one valid peer per identity; and so it does at every
    point of every interleaving of attempts cut at their calls, each of
    which, left alone, is [dialPeersAsync] or [handleStream]. *)
Theorem admission_first_valid_wins :
  (forall w id old,
     valid_entry X w id = Some old -> dialPeersAsync X id w = Done None w) /\
  (forall w s old,
     valid_entry X w (x_RemotePeer X s) = Some old ->
     exists w', handleStream X s w = Done tt w' /\
                w_sw w' = w_sw w /\ w_ext w' = w_ext w /\
                Forall (fun e => exists l f a, e = ELog l f a) (new_events w w')) /\
  (forall w id old op w',
     is_admission op = true ->
     valid_entry X w id = Some old ->
     run_op X op w = Done tt w' ->
     sw_peers (w_sw w') !! id = Some old) /\
  (forall cfg (net : Net) ops w id,
     run_ops X ops (NewSwitch cfg net) = Done tt w ->
     length (live_peers X w id) <= 1) /\
  (forall w id s,
     run_attempt X 6 (Finding (Outbound id)) w = forget (dialPeersAsync X id w) /\
     run_attempt X 6 (Finding (Inbound s)) w = forget (handleStream X s w)) /\
  (forall schedule attempts w pool w' id,
     keyed (sw_peers (w_sw w)) ->
     interleave X schedule (Finding <$> attempts) w = Done pool w' ->
     length (live_peers X w' id) <= 1).
Proof.
  split; [exact dialPeersAsync_keep|].
  split.
  { intros w s old Hv. eexists. split; [by eapply handleStream_keep|].
    split; [done|]. split; [done|].
    rewrite new_events_app. repeat constructor. eauto. }
  split; [exact admission_retains|].
  split.
  { intros cfg net ops w id Hrun. unfold live_peers.
    eapply keyed_at_most_one, reachable_keyed, Hrun. }
  split.
  { intros w id s. split; [apply run_attempt_Outbound|apply run_attempt_Inbound]. }
  intros schedule attempts w pool w' id Hk Hrun. unfold live_peers.
  apply keyed_at_most_one.
  pose proof (preserves_interleave schedule (Finding <$> attempts) w Hk) as Hp.
  by rewrite Hrun in Hp.
Qed.

(** C7, as the code has it: with a valid entry in place the outbound path
    returns nil and leaves the world as it was; the inbound path leaves the
    switch and the outside world as they were and writes one error-level
    line, "use an old one", to the log. *)
Theorem duplicate_attempt_discarded w id old :
  valid_entry X w id = Some old ->
  dialPeersAsync X id w = Done None w /\
  forall s, x_RemotePeer X s = id ->
    handleStream X s w =
      Done tt (mkWorld (w_sw w) (w_ext w)
        (w_trace w ++
           [ELog LError "use an old one @ handleStream, peer_id: %s" [id]])).
Proof.
  intros Hv. split; [by eapply dialPeersAsync_keep|].
  intros s <-. by eapply handleStream_keep.
Qed.

(** C8: on the outbound path, when the stream opens and the construction
    of the peer fails, [dialPeersAsync] returns the construction error,
    closes the stream, removes the identity from the routing table, and
    leaves the set as it was. *)
Theorem dialPeersAsync_construction_failure w id h d s n1 c :
  sw_host (w_sw w) = Some h ->
  sw_kdht (w_sw w) = Some d ->
  valid_entry X w id = None ->
  x_NewStream X h id (w_ext w) = (inr s, n1) ->
  x_NewDefaultPeer X (mkAddrInfo id (x_PeerstoreAddrs X h id n1)) s
                   (sw_reactor (w_sw w)) n1 = Some c ->
  exists w',
    dialPeersAsync X id w = Done (Some (ExtErr NewPeer c)) w' /\
    sw_peers (w_sw w') = sw_peers (w_sw w) /\
    new_events w w' =
      [ENewStream h id;
       ELog LError "new remote peer fail @ DialPeersAsync, peer_id: %s, err: %v" [id];
       EStreamClose s;
       ERemovePeer d id] /\
    w_ext w' = x_RemovePeer X d id (x_StreamClose X s n1).
Proof.
  intros Hh Hd Hv Hs Hp. eexists.
  split; [by eapply dialPeersAsync_NewPeer_fails|].
  split; [done|]. split; [|done]. by rewrite new_events_app.
Qed.

End Admission.

(** * Send and Broadcast *)

Section Sending.
Context {Module : Type} `{Countable Module} {Reactor Net : Type}.
Variable X : @Externals Module _ _ Reactor Net.
Implicit Types w : @World Module _ _ Reactor Net.
Implicit Types (pr : string) (chID : Z) (msg : list Byte.byte).

Lemma Send_run w pr chID msg :
  Send X pr chID msg w =
    Done (Send_result X w pr chID msg)
         (mkWorld (w_sw w) (Send_ext X w pr chID msg)
                  (w_trace w ++ Send_events X w pr chID msg)).
Proof.
  unfold Send, Send_result, Send_events, Send_ext, Send_target, peer_Decode,
    PeerSet_Find, Peer_Send, log_Error, emit, call, get_sw, bind, ret.
  destruct (x_Decode X pr) as [c|i]; simpl;
    (destruct (sw_peers (w_sw w) !! _) as [p|]; simpl;
     [destruct (x_Send X p chID msg (w_ext w)) as [[] n']; simpl|]);
    rewrite <- ?app_assoc, ?app_nil_r; reflexivity.
Qed.

(** C4: [Send] returns an error exactly when the identity it resolved is
    not in the set or the peer's own send reports failure; when the lookup
    fails the error is "peer not found" and nothing is sent; otherwise the
    one send attempt of the call goes to the peer registered under that
    identity, with the channel and the payload given, and on its success
    [Send] returns nil. *)
Theorem Send_error_iff w pr chID msg :
  exists r w',
    Send X pr chID msg w = Done r w' /\
    w_sw w' = w_sw w /\
    (r <> None <->
       sw_peers (w_sw w) !! Send_target X pr = None \/
       exists p, sw_peers (w_sw w) !! Send_target X pr = Some p /\
                 fst (x_Send X p chID msg (w_ext w)) = false) /\
    match sw_peers (w_sw w) !! Send_target X pr with
    | None =>
        r = Some ErrPeerNotFound /\
        filter is_send (new_events w w') = [] /\
        w_ext w' = w_ext w
    | Some p =>
        let ok := fst (x_Send X p chID msg (w_ext w)) in
        r = (if ok then None else Some ErrSendFailed) /\
        filter is_send (new_events w w') = [EPeerSend p chID msg ok] /\
        w_ext w' = snd (x_Send X p chID msg (w_ext w))
    end.
Proof.
  eexists _, _. split; [apply Send_run|]. split; [done|].
  rewrite new_events_app.
  unfold Send_result, Send_events, Send_ext.
  destruct (sw_peers (w_sw w) !! Send_target X pr) as [p|]; simpl.
  - split.
    + destruct (fst (x_Send X p chID msg (w_ext w))) eqn:Hok; split.
      * done.
      * intros [?|(q & [= <-] & Hq)]; congruence.
      * intros _. right. eauto.
      * done.
    + split; [done|]. split; [|done].
      by destruct (x_Decode X pr).
  - split; [split; [by left | done]|].
    split; [done|]. split; [|done].
    by destruct (x_Decode X pr).
Qed.

(** C9: when the string does not decode, [Send] logs the failure and goes
    on to look up the zero identity; what it returns is the result of that
    lookup and send, never the decode error. *)
Theorem Send_undecodable w pr chID msg c :
  x_Decode X pr = inl c ->
  exists r w',
    Send X pr chID msg w = Done r w' /\
    head (new_events w w') = Some (convert_failed pr) /\
    Send_target X pr = zero_ID /\
    r = match sw_peers (w_sw w) !! zero_ID with
        | None => Some ErrPeerNotFound
        | Some p =>
            if fst (x_Send X p chID msg (w_ext w)) then None
            else Some ErrSendFailed
        end /\
    (forall c', r <> Some (ExtErr DecodeID c')).
Proof.
  intros Hdec. eexists _, _. split; [apply Send_run|].
  rewrite new_events_app.
  assert (Ht : Send_target X pr = zero_ID)
    by (unfold Send_target, peer_Decode; by rewrite Hdec).
  unfold Send_events, Send_result. rewrite Hdec, Ht.
  split; [done|]. split; [done|]. split; [done|].
  intros c'. destruct (sw_peers (w_sw w) !! zero_ID) as [p|]; [|done].
  by destruct (fst (x_Send X p chID msg (w_ext w))).
Qed.

(** ** Broadcast *)

(** The fan-out makes one send attempt for each pending peer, in some
    order, and then returns. *)
Lemma fan_out_sends chID msg n (pending : list Peer) w :
  n = length pending ->
  exists (attempts : list (Peer * bool)) (net' : Net),
    fan_out X (fun p => Peer_Send X p chID msg) n pending w =
      Done tt (mkWorld (w_sw w) net'
                       (w_trace w ++ map (send_event chID msg) attempts)) /\
    attempts.*1 ≡ₚ pending.
Proof.
  revert pending w. induction n as [|n IH]; intros pending w Hn.
  - destruct pending; [|done]. exists [], (w_ext w). simpl.
    rewrite app_nil_r. by destruct w.
  - simpl. unfold bind at 1, read at 1.
    set (i := x_Sched X (length pending) (w_ext w) `mod` length pending).
    assert (Hi : i < length pending)
      by (apply Nat.mod_upper_bound; lia).
    destruct (lookup_lt_is_Some_2 _ _ Hi) as [p Hp]. rewrite Hp.
    unfold bind at 1, Peer_Send at 1, bind at 1, call at 1.
    destruct (x_Send X p chID msg (w_ext w)) as [ok n1]. simpl.
    destruct (IH (delete i pending)
                 (mkWorld (w_sw w) n1 (w_trace w ++ [EPeerSend p chID msg ok])))
      as (attempts & net' & Hrun & Hperm).
    { rewrite length_delete by eauto. lia. }
    exists ((p, ok) :: attempts), net'. split.
    + rewrite Hrun. simpl. by rewrite <- app_assoc.
    + simpl. rewrite Hperm. symmetry. by apply delete_Permutation.
Qed.

(** C3: [Broadcast] returns, and when it does every peer that was in the
    set when the traversal started has had its one send attempt, whatever
    its result; the attempts are for those peers and no others, and the
    set is as it was.  With no peer in the set it returns at once, having
    only written its line to the log. *)
Theorem Broadcast_completes w chID msg :
  exists (attempts : list (Peer * bool)) w',
    Broadcast X chID msg w = Done tt w' /\
    w_sw w' = w_sw w /\
    new_events w w' = map (send_event chID msg) attempts ++ [broadcast_done] /\
    attempts.*1 ≡ₚ PeerSet_List (sw_peers (w_sw w)) /\
    (sw_peers (w_sw w) = ∅ ->
       w' = mkWorld (w_sw w) (w_ext w) (w_trace w ++ [broadcast_done])).
Proof.
  unfold Broadcast, PeerSet_Range, bind at 1 2, get_sw at 1.
  destruct (fan_out_sends chID msg _ (PeerSet_List (sw_peers (w_sw w))) w eq_refl)
    as (attempts & net' & Hrun & Hperm).
  rewrite Hrun. unfold log_Info, emit. simpl. exists attempts. eexists.
  split; [reflexivity|]. split; [done|].
  split; [by rewrite <- app_assoc, new_events_app|].
  split; [done|].
  intros Hempty. rewrite Hempty in Hrun, Hperm.
  unfold PeerSet_List in Hrun, Hperm. rewrite map_to_list_empty in Hrun, Hperm.
  apply Permutation_nil_r, fmap_nil_inv in Hperm as ->.
  simpl in Hrun. injection Hrun as Hw.
  apply (f_equal w_ext) in Hw. simpl in Hw.
  rewrite <- Hw. simpl. by rewrite app_nil_r.
Qed.

End Sending.

(** * Connecting and bootstrapping *)

Section Bootstrap.
Context {Module : Type} `{Countable Module} {Reactor Net : Type}.
Variable X : @Externals Module _ _ Reactor Net.
Implicit Types w : @World Module _ _ Reactor Net.
Implicit Types (h : Host) (d : DHT) (ai : AddrInfo) (m : string).

(** Once host and DHT are there, [dialPeersAsync] returns; when it returns
    an error it has neither registered nor started a peer. *)
Lemma dialPeersAsync_returns w id h d :
  sw_host (w_sw w) = Some h ->
  sw_kdht (w_sw w) = Some d ->
  exists r w2,
    dialPeersAsync X id w = Done r w2 /\
    (r <> None ->
       w_sw w2 = w_sw w /\ filter is_peer_start (new_events w w2) = []).
Proof.
  intros Hh Hd. unfold dialPeersAsync, bind at 1. rewrite has_valid_peer_run.
  destruct (valid_entry X w id) as [old|]; [by eexists _, _|].
  unfold the_host, the_kdht, host_NewStream, Peerstore_PeerInfo, NewDefaultPeer,
    stream_Close, RoutingTable_RemovePeer, PeerSet_Add, Peer_Start, log_Error,
    emit, call, act, read, upd_sw, get_sw, bind, ret.
  simpl. rewrite Hh.
  destruct (x_NewStream X h id (w_ext w)) as [[c|s] n1]; simpl.
  { eexists _, _. split; [done|]. intros _. split; [done|].
    rewrite <- !app_assoc. by rewrite new_events_app. }
  destruct (x_NewDefaultPeer X _ s (sw_reactor (w_sw w)) n1) as [c|]; simpl.
  - rewrite Hd. simpl. eexists _, _. split; [done|]. intros _. split; [done|].
    rewrite <- !app_assoc. by rewrite new_events_app.
  - by eexists _, _.
Qed.

Lemma connect_run w m pa ai h n1 :
  x_ParseString X m = inr pa ->
  x_AddrInfoFromP2pAddr X pa = inr ai ->
  sw_host (w_sw w) = Some h ->
  x_Connect X h ai (w_ext w) = (None, n1) ->
  connect X m w =
    match dialPeersAsync X (ai_ID ai)
            (mkWorld (w_sw w) n1 (w_trace w ++ [EConnect h ai])) with
    | Done (Some _) w2 => Done None (log_to w2 [dial_failed ai])
    | Done None w2 => Done None w2
    | Panic w2 => Panic w2
    | Spin => Spin
    end.
Proof.
  intros Hpa Hai Hh Hc.
  unfold connect, ipfsaddr_ParseString, peer_AddrInfoFromP2pAddr.
  rewrite Hpa. simpl. rewrite Hai. simpl.
  unfold the_host, host_Connect, log_Error, emit, call, get_sw, bind, ret.
  simpl. rewrite Hh, Hc. simpl.
  destruct (dialPeersAsync X (ai_ID ai) _) as [[e|] w2| |]; reflexivity.
Qed.

(** C10: when the address parses, the address info is extracted and the
    host-level connect succeeds, [connect] returns nil whatever the dial of
    the application stream does; when the dial fails, [connect] only logs
    it, no peer has been registered or started, and the loop of [bootstrap]
    goes on to log "build stream success" for the candidate. *)
Theorem connect_hides_dial_failure w m pa ai h d n1 :
  x_ParseString X m = inr pa ->
  x_AddrInfoFromP2pAddr X pa = inr ai ->
  sw_host (w_sw w) = Some h ->
  sw_kdht (w_sw w) = Some d ->
  x_Connect X h ai (w_ext w) = (None, n1) ->
  let w1 := mkWorld (w_sw w) n1 (w_trace w ++ [EConnect h ai]) in
  exists r w2,
    dialPeersAsync X (ai_ID ai) w1 = Done r w2 /\
    match r with
    | None => connect X m w = Done None w2
    | Some _ =>
        connect X m w = Done None (log_to w2 [dial_failed ai]) /\
        bootstrap_try X m w =
          Done tt (log_to w2 [dial_failed ai; build_stream_success m]) /\
        w_sw w2 = w_sw w /\
        filter is_peer_start (new_events w1 w2) = []
    end.
Proof.
  intros Hpa Hai Hh Hd Hc w1.
  destruct (dialPeersAsync_returns w1 (ai_ID ai) h d Hh Hd)
    as (r & w2 & Hdial & Hfail).
  exists r, w2. split; [done|].
  pose proof (connect_run w m pa ai h n1 Hpa Hai Hh Hc) as Hrun.
  fold w1 in Hrun. rewrite Hdial in Hrun.
  destruct r as [e|]; [|done].
  destruct Hfail as [Hsw Hnone]; [done|].
  split; [done|]. split; [|done].
  unfold bootstrap_try, bind. rewrite Hrun.
  unfold log_Info, emit, log_to. simpl. by rewrite <- app_assoc.
Qed.

(** ** The retry loop *)

Lemma bootstrap_retry_S fuel w :
  bootstrap_retry X (S fuel) w =
    match bootstrap_round X w with
    | Done l w1 =>
        if decide (length l = 0) then bootstrap_retry X fuel w1
        else Done None w1
    | Panic w1 => Panic w1
    | Spin => Spin
    end.
Proof.
  simpl. unfold bootstrap_round, bind, get_sw.
  destruct (for_range _ _ w) as [[] w1| |]; [|done..].
  destruct (the_kdht w1) as [d w2| |]; [|done..].
  destruct (RoutingTable_ListPeers X d w2) as [l w3| |]; [|done..].
  by case_decide.
Qed.

(** The loop returns exactly when some pass finds a peer in the routing
    table, and the fuel covers the passes before it. *)
Lemma bootstrap_retry_Done fuel w r w' :
  bootstrap_retry X fuel w = Done r w' <->
  r = None /\ exists k, k < fuel /\ retries X k w w'.
Proof.
  split.
  - revert w. induction fuel as [|fuel IH]; intros w; [done|].
    rewrite bootstrap_retry_S.
    destruct (bootstrap_round X w) as [l w1| |] eqn:Hround; [|done..].
    case_decide as Hl.
    + intros Hrun. destruct (IH _ Hrun) as (-> & k & Hk & Hret).
      split; [done|]. exists (S k). split; [lia|].
      eapply retries_again; [|done].
      by destruct l.
    + intros [= <- <-]. split; [done|]. exists 0. split; [lia|].
      eapply retries_stop; [done|]. by intros ->.
  - intros (-> & k & Hk & Hret). revert fuel Hk.
    induction Hret as [w l w' Hround Hl | k w w1 w' Hround Hret IH];
      intros fuel Hk; (destruct fuel as [|fuel]; [lia|]);
      rewrite bootstrap_retry_S, Hround.
    + case_decide as Hlen; [|done]. by destruct l.
    + simpl. apply IH. lia.
Qed.

Lemma bootstrap_run w d :
  sw_kdht (w_sw w) = Some d ->
  forall fuel,
  bootstrap X fuel w =
    match x_DHTBootstrap X d (w_ext w) with
    | (Some c, n1) =>
        Done (Some (ExtErr DHTBootstrap c))
             (mkWorld (w_sw w) n1
                (w_trace w ++
                   [EDHTBootstrap d;
                    ELog LError "kdht bootstrap failed @ p2p.bootstrap, err: %v" []]))
    | (None, n1) =>
        bootstrap_retry X fuel (mkWorld (w_sw w) n1 (w_trace w ++ [EDHTBootstrap d]))
    end.
Proof.
  intros Hd fuel.
  unfold bootstrap, the_kdht, kdht_Bootstrap, log_Error, emit, call, get_sw, bind, ret.
  simpl. rewrite Hd.
  destruct (x_DHTBootstrap X d (w_ext w)) as [[c|] n1]; simpl; [|done].
  by rewrite <- app_assoc.
Qed.

(** ** Candidates that cannot be reached *)

Section Stuck.
Variable I : Net -> Prop.
Variables (h : Host) (d : DHT).

Lemma connect_unreachable m w :
  unreachable X I h m ->
  sw_host (w_sw w) = Some h ->
  I (w_ext w) ->
  exists e w', connect X m w = Done (Some e) w' /\
               w_sw w' = w_sw w /\ I (w_ext w').
Proof.
  unfold unreachable, connect, ipfsaddr_ParseString, peer_AddrInfoFromP2pAddr.
  intros Hu Hh HI.
  destruct (x_ParseString X m) as [c|pa]; simpl; [by eexists _, _|].
  destruct (x_AddrInfoFromP2pAddr X pa) as [c|ai]; simpl; [by eexists _, _|].
  destruct (Hu _ HI) as (c & n' & Hc & HI').
  unfold the_host, host_Connect, log_Error, emit, call, get_sw, bind, ret.
  simpl. rewrite Hh, Hc. simpl. by eexists _, _.
Qed.

Lemma bootstrap_pass_unreachable l w :
  Forall (unreachable X I h) l ->
  sw_host (w_sw w) = Some h ->
  I (w_ext w) ->
  exists w', for_range l (bootstrap_try X) w = Done tt w' /\
             w_sw w' = w_sw w /\ I (w_ext w').
Proof.
  intros Hl. revert w. induction Hl as [|m l Hm Hl IH]; intros w Hh HI.
  - by exists w.
  - destruct (connect_unreachable m w Hm Hh HI) as (e & w1 & Hc & Hsw & HI1).
    destruct (IH w1) as (w2 & Hrun & Hsw2 & HI2); [by rewrite Hsw|done|].
    exists w2. simpl. unfold bind at 1, bootstrap_try at 1, bind at 1.
    rewrite Hc. simpl. rewrite Hrun. split; [done|]. split; [congruence|done].
Qed.

(** A pass over candidates that cannot be reached skips each of them and
    gets to the test. *)
Lemma bootstrap_round_skips w :
  Forall (unreachable X I h) (BootStrap (sw_cfg (w_sw w))) ->
  sw_host (w_sw w) = Some h ->
  sw_kdht (w_sw w) = Some d ->
  I (w_ext w) ->
  exists w1,
    I (w_ext w1) /\ w_sw w1 = w_sw w /\
    bootstrap_round X w =
      Done (fst (x_ListPeers X d (w_ext w1)))
           (mkWorld (w_sw w1) (snd (x_ListPeers X d (w_ext w1))) (w_trace w1)).
Proof.
  intros Hl Hh Hd HI.
  destruct (bootstrap_pass_unreachable _ w Hl Hh HI) as (w1 & Hrun & Hsw & HI1).
  exists w1. split; [done|]. split; [done|].
  unfold bootstrap_round, bind at 1, get_sw at 1, bind at 1.
  rewrite Hrun.
  unfold the_kdht, RoutingTable_ListPeers, call, get_sw, bind, ret.
  rewrite <- Hsw in Hd. rewrite Hd. by destruct (x_ListPeers X d (w_ext w1)).
Qed.

Hypothesis Hempty : table_stays_empty X I d.

Lemma bootstrap_round_stuck w :
  Forall (unreachable X I h) (BootStrap (sw_cfg (w_sw w))) ->
  sw_host (w_sw w) = Some h ->
  sw_kdht (w_sw w) = Some d ->
  I (w_ext w) ->
  exists w', bootstrap_round X w = Done [] w' /\
             w_sw w' = w_sw w /\ I (w_ext w').
Proof.
  intros Hl Hh Hd HI.
  destruct (bootstrap_round_skips w Hl Hh Hd HI) as (w1 & HI1 & Hsw & Hround).
  destruct (Hempty _ HI1) as (n' & Hlist & HI').
  rewrite Hlist in Hround. by eexists.
Qed.

Lemma bootstrap_retry_spins fuel w :
  Forall (unreachable X I h) (BootStrap (sw_cfg (w_sw w))) ->
  sw_host (w_sw w) = Some h ->
  sw_kdht (w_sw w) = Some d ->
  I (w_ext w) ->
  bootstrap_retry X fuel w = Spin.
Proof.
  revert w. induction fuel as [|fuel IH]; intros w Hl Hh Hd HI; [done|].
  destruct (bootstrap_round_stuck w Hl Hh Hd HI) as (w1 & Hround & Hsw & HI1).
  rewrite bootstrap_retry_S, Hround. simpl.
  apply IH; [by rewrite Hsw..|done].
Qed.

End Stuck.

(** ** Start *)

(** [Start], stage by stage. *)
Lemma Start_run fuel w :
  Start X fuel w =
    let cfg := sw_cfg (w_sw w) in
    match x_DecodeString X (PrivateKey cfg) with
    | inl c => Done (Some (ExtErr Base64Decode c)) w
    | inr privData =>
    match x_UnmarshalPrivateKey X privData with
    | inl c => Done (Some (ExtErr UnmarshalKey c)) w
    | inr priv =>
    match x_New X (Address cfg) priv (w_ext w) with
    | (inl c, n1) =>
        Done (Some (ExtErr NewHost c))
             (mkWorld (w_sw w) n1
                      (w_trace w ++ [ENewHost (Address cfg); new_host_failed]))
    | (inr h, n1) =>
        let n2 := x_SetStreamHandler X h n1 in
        match x_Addrs X h n2 with
        | [] =>
            Panic (mkWorld (with_host (Some h) (w_sw w)) n2
                     (w_trace w ++
                        [ENewHost (Address cfg); ESetStreamHandler h protocolPrefix]))
        | addr :: _ =>
            match x_NewDHT X h n2 with
            | (inl c, n3) =>
                Done (Some (ExtErr NewDHT c))
                     (log_to (Start_world X w h None addr n3) [new_dht_failed])
            | (inr d, n3) =>
                match bootstrap X fuel (Start_world X w h (Some d) addr n3) with
                | Done (Some e) w' => Done (Some e) (log_to w' [bootstrap_failed])
                | Done None w' => Done None (log_to w' [ESpawnAcceptRoutine])
                | Panic w' => Panic w'
                | Spin => Spin
                end
            end
        end
    end end end.
Proof.
  unfold Start, bind at 1, get_sw at 1. simpl.
  destruct (x_DecodeString X _) as [c|privData]; [done|].
  destruct (x_UnmarshalPrivateKey X privData) as [c|priv]; [done|].
  unfold libp2p_New, host_SetStreamHandler, dht_New, log_Error, log_Info, emit,
    call, act, read, upd_sw, bind at 1 2 3 4 5 6 7 8 9 10, ret.
  simpl.
  destruct (x_New X _ priv (w_ext w)) as [[c|h] n1]; simpl.
  { by rewrite <- app_assoc. }
  destruct (x_Addrs X h (x_SetStreamHandler X h n1)) as [|addr addrs]; simpl.
  { unfold panic. by rewrite <- app_assoc. }
  unfold bind at 1 2 3 4. simpl.
  destruct (x_NewDHT X h (x_SetStreamHandler X h n1)) as [[c|d] n3]; simpl.
  { unfold bind, log_to, Start_world. simpl. by rewrite <- !app_assoc. }
  unfold bind at 1 2. simpl.
  replace (mkWorld _ n3 _) with (Start_world X w h (Some d) addr n3)
    by (unfold Start_world; simpl; by rewrite <- !app_assoc).
  destruct (bootstrap X fuel _) as [[e|] w'| |]; reflexivity.
Qed.

Lemma bootstrap_error fuel w e w' :
  bootstrap X fuel w = Done (Some e) w' -> exists c, e = ExtErr DHTBootstrap c.
Proof.
  destruct (sw_kdht (w_sw w)) as [d|] eqn:Hd.
  - rewrite (bootstrap_run w d Hd).
    destruct (x_DHTBootstrap X d (w_ext w)) as [[c|] n1].
    + intros [= <- _]. eauto.
    + intros Hrun. by apply bootstrap_retry_Done in Hrun as [? _].
  - unfold bootstrap, the_kdht, bind at 1 2, get_sw. by rewrite Hd.
Qed.

(** C2: [bootstrap] returns nil exactly when, after some number of passes
    over the configured candidates that each found the routing table
    empty, a pass finds a peer in it.  So when no configured candidate can
    be reached (in particular when none is configured) and the routing
    table stays empty, no amount of fuel makes [bootstrap] return, and
    [Start], once it has reached [bootstrap], does not return either. *)
Theorem bootstrap_retries_until_peer :
  (forall fuel w d n1 w',
     sw_kdht (w_sw w) = Some d ->
     x_DHTBootstrap X d (w_ext w) = (None, n1) ->
     (bootstrap X fuel w = Done None w' <->
      exists k, k < fuel /\
        retries X k (mkWorld (w_sw w) n1 (w_trace w ++ [EDHTBootstrap d])) w')) /\
  (forall (I : Net -> Prop) h d,
     table_stays_empty X I d ->
     (forall fuel w n1,
        sw_host (w_sw w) = Some h ->
        sw_kdht (w_sw w) = Some d ->
        Forall (unreachable X I h) (BootStrap (sw_cfg (w_sw w))) ->
        x_DHTBootstrap X d (w_ext w) = (None, n1) ->
        I n1 ->
        bootstrap X fuel w = Spin) /\
     (forall fuel w privData priv n1 addr addrs n3 n4,
        x_DecodeString X (PrivateKey (sw_cfg (w_sw w))) = inr privData ->
        x_UnmarshalPrivateKey X privData = inr priv ->
        x_New X (Address (sw_cfg (w_sw w))) priv (w_ext w) = (inr h, n1) ->
        x_Addrs X h (x_SetStreamHandler X h n1) = addr :: addrs ->
        x_NewDHT X h (x_SetStreamHandler X h n1) = (inr d, n3) ->
        x_DHTBootstrap X d n3 = (None, n4) ->
        Forall (unreachable X I h) (BootStrap (sw_cfg (w_sw w))) ->
        I n4 ->
        Start X fuel w = Spin)).
Proof.
  split.
  { intros fuel w d n1 w' Hd Hb.
    rewrite (bootstrap_run w d Hd), Hb, bootstrap_retry_Done.
    split; [by intros [_ ?] | by intros ?; split]. }
  intros I h d Hempty.
  assert (Hboot : forall fuel w n1,
            sw_host (w_sw w) = Some h ->
            sw_kdht (w_sw w) = Some d ->
            Forall (unreachable X I h) (BootStrap (sw_cfg (w_sw w))) ->
            x_DHTBootstrap X d (w_ext w) = (None, n1) ->
            I n1 ->
            bootstrap X fuel w = Spin).
  { intros fuel w n1 Hh Hd Hl Hb HI.
    rewrite (bootstrap_run w d Hd), Hb.
    by apply (bootstrap_retry_spins I h d Hempty). }
  split; [exact Hboot|].
  intros fuel w privData priv n1 addr addrs n3 n4 Hkey Hpriv Hnew Haddr Hdht Hb Hl HI.
  rewrite Start_run. simpl. rewrite Hkey, Hpriv, Hnew, Haddr, Hdht.
  by rewrite (Hboot fuel _ n4).
Qed.

(** C5: [Start] returns the error when the key does not decode, when the
    host cannot be constructed and when the DHT client cannot be
    constructed; and whatever happens to the bootstrap candidates, an error
    that [Start] returns comes from one of those stages or from the
    bootstrap of the DHT itself, never from a connect. *)
Theorem Start_errors :
  (forall fuel w c,
     x_DecodeString X (PrivateKey (sw_cfg (w_sw w))) = inl c ->
     Start X fuel w = Done (Some (ExtErr Base64Decode c)) w) /\
  (forall fuel w privData c,
     x_DecodeString X (PrivateKey (sw_cfg (w_sw w))) = inr privData ->
     x_UnmarshalPrivateKey X privData = inl c ->
     Start X fuel w = Done (Some (ExtErr UnmarshalKey c)) w) /\
  (forall fuel w privData priv c n1,
     x_DecodeString X (PrivateKey (sw_cfg (w_sw w))) = inr privData ->
     x_UnmarshalPrivateKey X privData = inr priv ->
     x_New X (Address (sw_cfg (w_sw w))) priv (w_ext w) = (inl c, n1) ->
     exists w', Start X fuel w = Done (Some (ExtErr NewHost c)) w') /\
  (forall fuel w privData priv h n1 addr addrs c n3,
     x_DecodeString X (PrivateKey (sw_cfg (w_sw w))) = inr privData ->
     x_UnmarshalPrivateKey X privData = inr priv ->
     x_New X (Address (sw_cfg (w_sw w))) priv (w_ext w) = (inr h, n1) ->
     x_Addrs X h (x_SetStreamHandler X h n1) = addr :: addrs ->
     x_NewDHT X h (x_SetStreamHandler X h n1) = (inl c, n3) ->
     exists w', Start X fuel w = Done (Some (ExtErr NewDHT c)) w') /\
  (forall fuel w e w',
     Start X fuel w = Done (Some e) w' ->
     exists o c, e = ExtErr o c /\ startup_origin o = true) /\
  (forall (I : Net -> Prop) fuel w privData priv h n1 addr addrs d n3 n4,
     x_DecodeString X (PrivateKey (sw_cfg (w_sw w))) = inr privData ->
     x_UnmarshalPrivateKey X privData = inr priv ->
     x_New X (Address (sw_cfg (w_sw w))) priv (w_ext w) = (inr h, n1) ->
     x_Addrs X h (x_SetStreamHandler X h n1) = addr :: addrs ->
     x_NewDHT X h (x_SetStreamHandler X h n1) = (inr d, n3) ->
     x_DHTBootstrap X d n3 = (None, n4) ->
     Forall (unreachable X I h) (BootStrap (sw_cfg (w_sw w))) ->
     I n4 ->
     (forall n, I n -> exists l n', x_ListPeers X d n = (l, n') /\ l <> []) ->
     exists w', Start X (S fuel) w = Done None w').
Proof.
  split; [|split; [|split; [|split; [|split]]]].
  - intros fuel w c Hkey. rewrite Start_run. simpl. by rewrite Hkey.
  - intros fuel w privData c Hkey Hpriv. rewrite Start_run. simpl.
    by rewrite Hkey, Hpriv.
  - intros fuel w privData priv c n1 Hkey Hpriv Hnew. rewrite Start_run. simpl.
    rewrite Hkey, Hpriv, Hnew. by eexists.
  - intros fuel w privData priv h n1 addr addrs c n3 Hkey Hpriv Hnew Haddr Hdht.
    rewrite Start_run. simpl. rewrite Hkey, Hpriv, Hnew, Haddr, Hdht. by eexists.
  - intros fuel w e w'. rewrite Start_run. simpl.
    destruct (x_DecodeString X _) as [c|privData]; [intros [= <- _]; by eexists _, _|].
    destruct (x_UnmarshalPrivateKey X privData) as [c|priv];
      [intros [= <- _]; by eexists _, _|].
    destruct (x_New X _ priv (w_ext w)) as [[c|h] n1];
      [intros [= <- _]; by eexists _, _|].
    destruct (x_Addrs X h _) as [|addr addrs]; [done|].
    destruct (x_NewDHT X h _) as [[c|d] n3]; [intros [= <- _]; by eexists _, _|].
    destruct (bootstrap X fuel _) as [[e'|] w2| |] eqn:Hboot; [|done..].
    intros [= <- _]. apply bootstrap_error in Hboot as [c ->]. by eexists _, _.
  - intros I fuel w privData priv h n1 addr addrs d n3 n4
      Hkey Hpriv Hnew Haddr Hdht Hb Hl HI Hlist.
    rewrite Start_run. simpl. rewrite Hkey, Hpriv, Hnew, Haddr, Hdht.
    rewrite (bootstrap_run (Start_world X w h (Some d) addr n3) d eq_refl).
    change (w_ext (Start_world X w h (Some d) addr n3)) with n3. rewrite Hb.
    match goal with |- context [bootstrap_retry X (S fuel) ?W] => set (w0 := W) end.
    destruct (bootstrap_round_skips I h d w0 Hl eq_refl eq_refl HI)
      as (w1 & HI1 & Hsw & Hround).
    destruct (Hlist _ HI1) as (l & n' & Hl' & Hne).
    rewrite Hl' in Hround. simpl in Hround.
    assert (Hret : bootstrap_retry X (S fuel) w0 =
                   Done None (mkWorld (w_sw w1) n' (w_trace w1))).
    { apply bootstrap_retry_Done. split; [done|]. exists 0. split; [lia|].
      by eapply retries_stop. }
    rewrite Hret. by eexists.
Qed.

End Bootstrap.

(** * The switch at work in the small network *)

Example Start_joins_the_network :
  exists w',
    Start Demo.ext 1 (NewSwitch (Demo.cfg ["QmAlice"]) Demo.lively) = Done None w' /\
    map_to_list (sw_peers (w_sw w')) = [("QmAlice", mkPeer "QmAlice" (StreamHandle 2))] /\
    last (w_trace w') = Some ESpawnAcceptRoutine.
Proof. eexists. split; [vm_compute; reflexivity|]. split; vm_compute; reflexivity. Qed.

Example AddReactor_consensus_twice :
  exists w1,
    AddReactor "consensus" 1 (NewSwitch (Demo.cfg []) Demo.quiet) = Done None w1 /\
    AddReactor "consensus" 2 w1 = Done (Some ErrModuleRegistered) w1 /\
    registered w1 "consensus" = Some 1.
Proof. eexists. split; [reflexivity|]. split; vm_compute; reflexivity. Qed.

Example Send_to_alice :
  Send Demo.ext "QmAlice" 7 [] Demo.with_alice =
    Done None (log_to Demo.with_alice [EPeerSend Demo.alice 7 [] true]).
Proof. vm_compute. reflexivity. Qed.

Example Send_to_a_stranger :
  Send Demo.ext "QmBob" 7 [] Demo.with_alice =
    Done (Some ErrPeerNotFound) (log_to Demo.with_alice [find_failed "QmBob"]).
Proof. vm_compute. reflexivity. Qed.

Example Send_to_a_peer_gone_offline :
  exists w',
    Send Demo.ext "QmAlice" 7 []
         (Demo.started [] {[ "QmAlice" := Demo.alice ]} Demo.quiet)
      = Done (Some ErrSendFailed) w' /\
    filter is_send (w_trace w') = [EPeerSend Demo.alice 7 [] false].
Proof. eexists. split; vm_compute; reflexivity. Qed.

Example Broadcast_without_peers :
  Broadcast Demo.ext 1 [] (Demo.started [] ∅ Demo.quiet) =
    Done tt (log_to (Demo.started [] ∅ Demo.quiet) [broadcast_done]).
Proof. vm_compute. reflexivity. Qed.

Example Broadcast_to_two :
  exists w',
    Broadcast Demo.ext 1 []
      (Demo.started [] {[ "QmAlice" := Demo.alice; "QmBob" := Demo.bob ]} Demo.lively)
      = Done tt w' /\
    length (filter is_send (w_trace w')) = 2 /\
    last (w_trace w') = Some broadcast_done.
Proof. eexists. split; [vm_compute; reflexivity|]. split; vm_compute; reflexivity. Qed.

Example bootstrap_alone_spins :
  bootstrap Demo.ext 50 (Demo.started [] ∅ Demo.quiet) = Spin.
Proof. vm_compute. reflexivity. Qed.

(** Two inbound streams from one identity, interleaved call by call: both
    pass the check, both peers are constructed and started, and the set
    ends with one entry for the identity, the peer added last. *)
Example two_inbound_streams_one_entry :
  exists w',
    interleave Demo.ext [0; 1; 0; 1; 0; 1; 0; 1]
      [Finding (Inbound (StreamHandle 3)); Finding (Inbound (StreamHandle 4))]
      (Demo.started [] ∅ Demo.lively) = Done [Returned; Returned] w' /\
    map_to_list (sw_peers (w_sw w')) = [("QmEve", mkPeer "QmEve" (StreamHandle 4))] /\
    filter is_peer_start (w_trace w') =
      [EPeerStart (mkPeer "QmEve" (StreamHandle 3));
       EPeerStart (mkPeer "QmEve" (StreamHandle 4))].
Proof. eexists. split; [vm_compute; reflexivity|]. split; vm_compute; reflexivity. Qed.

Lemma admission_first_valid_wins_witness :
  valid_entry Demo.ext Demo.with_alice "QmAlice" = Some Demo.alice /\
  dialPeersAsync Demo.ext "QmAlice" Demo.with_alice = Done None Demo.with_alice /\
  (exists w', handleStream Demo.ext (StreamHandle 0) Demo.with_alice = Done tt w' /\
              w_sw w' = w_sw Demo.with_alice) /\
  length (live_peers Demo.ext Demo.with_alice "QmAlice") <= 1 /\
  (exists pool w',
     interleave Demo.ext [0; 1; 0; 1; 0; 1; 0; 1]
       (Finding <$> [Inbound (StreamHandle 3); Inbound (StreamHandle 4)])
       (Demo.started [] ∅ Demo.lively) = Done pool w' /\
     length (live_peers Demo.ext w' "QmEve") <= 1).
Proof.
  pose proof (admission_first_valid_wins Demo.ext)
    as (Hdial & Hin & _ & _ & _ & Hpool).
  assert (Hv : valid_entry Demo.ext Demo.with_alice "QmAlice" = Some Demo.alice)
    by (vm_compute; reflexivity).
  split; [exact Hv|]. split; [exact (Hdial _ _ _ Hv)|]. split; [|split].
  - destruct (Hin Demo.with_alice (StreamHandle 0) Demo.alice Hv)
      as (w' & Hrun & Hsw & _).
    exists w'. by split.
  - vm_compute. lia.
  - destruct two_inbound_streams_one_entry as (w' & Hrun & _).
    exists [Returned; Returned], w'. split; [exact Hrun|].
    exact (Hpool [0; 1; 0; 1; 0; 1; 0; 1]
             [Inbound (StreamHandle 3); Inbound (StreamHandle 4)]
             (Demo.started [] ∅ Demo.lively) _ _ "QmEve" keyed_empty Hrun).
Defined.

Lemma duplicate_attempt_discarded_witness :
  valid_entry Demo.ext Demo.with_alice "QmAlice" = Some Demo.alice /\
  dialPeersAsync Demo.ext "QmAlice" Demo.with_alice = Done None Demo.with_alice.
Proof.
  assert (Hv : valid_entry Demo.ext Demo.with_alice "QmAlice" = Some Demo.alice)
    by (vm_compute; reflexivity).
  split; [exact Hv|].
  exact (proj1 (duplicate_attempt_discarded Demo.ext _ _ _ Hv)).
Defined.

(** C7 as stated fails on the inbound path: the discarded attempt leaves an
    error-level line in the log. *)
Lemma handleStream_duplicate_not_silent :
  valid_entry Demo.ext Demo.with_alice "QmAlice" = Some Demo.alice /\
  x_RemotePeer Demo.ext (StreamHandle 0) = "QmAlice" /\
  ~ discarded_silently tt Demo.with_alice
      (handleStream Demo.ext (StreamHandle 0) Demo.with_alice).
Proof.
  split; [vm_compute; reflexivity|]. split; [reflexivity|].
  intros (w' & Hrun & _ & Hlog).
  vm_compute in Hrun. injection Hrun as <-.
  vm_compute in Hlog. discriminate Hlog.
Qed.

Lemma dialPeersAsync_construction_failure_witness :
  let w := Demo.started [] ∅ Demo.refusing in
  valid_entry Demo.ext w "QmBob" = None /\
  exists w',
    dialPeersAsync Demo.ext "QmBob" w = Done (Some (ExtErr NewPeer 7)) w' /\
    sw_peers (w_sw w') = sw_peers (w_sw w) /\
    new_events w w' =
      [ENewStream (HostHandle 0) "QmBob";
       ELog LError "new remote peer fail @ DialPeersAsync, peer_id: %s, err: %v" ["QmBob"];
       EStreamClose (StreamHandle 2);
       ERemovePeer (DHTHandle 0) "QmBob"] /\
    w_ext w' = Demo.mkNet [] ["QmBob"] ["QmBob"] [2%nat] 3 false.
Proof.
  intros w. split; [vm_compute; reflexivity|].
  apply (dialPeersAsync_construction_failure Demo.ext w "QmBob"
           (HostHandle 0) (DHTHandle 0) (StreamHandle 2)
           (Demo.mkNet ["QmBob"] ["QmBob"] ["QmBob"] [] 3 false) 7);
    vm_compute; reflexivity.
Defined.

Lemma Send_undecodable_witness :
  x_Decode Demo.ext "alice" = inl 6%nat /\
  exists r w',
    Send Demo.ext "alice" 1 [] Demo.with_alice = Done r w' /\
    r = Some ErrPeerNotFound.
Proof.
  split; [reflexivity|].
  destruct (Send_undecodable Demo.ext Demo.with_alice "alice" 1 [] 6 eq_refl)
    as (r & w' & Hrun & _ & _ & Hr & _).
  exists r, w'. split; [exact Hrun|]. exact Hr.
Defined.

Lemma connect_hides_dial_failure_witness :
  let w := Demo.started ["QmBob"] ∅ Demo.refusing in
  let bob := mkAddrInfo "QmBob" ["QmBob"] in
  x_Connect Demo.ext (HostHandle 0) bob (w_ext w) =
    (None, Demo.mkNet ["QmBob"; "QmBob"] ["QmBob"] ["QmBob"] [] 2 false) /\
  exists w',
    connect Demo.ext "QmBob" w = Done None w' /\
    sw_peers (w_sw w') = ∅ /\
    exists w'',
      bootstrap_try Demo.ext "QmBob" w = Done tt w'' /\
      last (w_trace w'') = Some (build_stream_success "QmBob").
Proof.
  intros w bob. split; [reflexivity|].
  destruct (connect_hides_dial_failure Demo.ext w "QmBob" "QmBob" bob
              (HostHandle 0) (DHTHandle 0)
              (Demo.mkNet ["QmBob"; "QmBob"] ["QmBob"] ["QmBob"] [] 2 false)
              eq_refl eq_refl eq_refl eq_refl eq_refl)
    as (r & w2 & Hdial & Hr).
  vm_compute in Hdial. injection Hdial as <- <-.
  destruct Hr as (Hc & Hb & _ & _).
  eexists. split; [exact Hc|]. split; [reflexivity|].
  eexists. split; [exact Hb|]. reflexivity.
Defined.

Lemma bootstrap_retries_until_peer_witness :
  (exists w' k,
     bootstrap Demo.ext 3 (Demo.started ["QmAlice"] ∅ Demo.lively) = Done None w' /\
     k < 3 /\
     retries Demo.ext k
       (mkWorld (w_sw (Demo.started ["QmAlice"] ∅ Demo.lively)) Demo.lively
                [EDHTBootstrap (DHTHandle 0)]) w') /\
  Start Demo.ext 1000 (NewSwitch (Demo.cfg ["QmGhost"]) Demo.quiet) = Spin /\
  Start Demo.ext 1000 (NewSwitch (Demo.cfg []) Demo.quiet) = Spin.
Proof.
  pose proof (bootstrap_retries_until_peer Demo.ext) as [Hret Hspin].
  assert (Hempty : table_stays_empty Demo.ext (fun n => n = Demo.quiet) (DHTHandle 0)).
  { intros n ->. by eexists. }
  destruct (Hspin (fun n => n = Demo.quiet) (HostHandle 0) (DHTHandle 0) Hempty)
    as [_ HStart].
  split; [|split].
  - assert (E : exists w', bootstrap Demo.ext 3 (Demo.started ["QmAlice"] ∅ Demo.lively)
                           = Done None w')
      by (vm_compute; eexists; reflexivity).
    destruct E as [w' E]. exists w'.
    destruct (proj1 (Hret 3 (Demo.started ["QmAlice"] ∅ Demo.lively) (DHTHandle 0)
                       Demo.lively w' eq_refl eq_refl) E) as (k & Hk & Hretries).
    exists k. split; [exact E|]. split; [exact Hk|exact Hretries].
  - apply (HStart 1000 _ (String.list_byte_of_string "a2V5")
             (PrivKeyOf (String.list_byte_of_string "a2V5"))
             Demo.quiet "/ip4/127.0.0.1/tcp/30001" [] Demo.quiet Demo.quiet);
      try reflexivity.
    constructor; [|constructor].
    intros n ->. by eexists _, _.
  - apply (HStart 1000 _ (String.list_byte_of_string "a2V5")
             (PrivKeyOf (String.list_byte_of_string "a2V5"))
             Demo.quiet "/ip4/127.0.0.1/tcp/30001" [] Demo.quiet Demo.quiet);
      try reflexivity.
    constructor.
Defined.

Lemma Start_errors_witness :
  Start Demo.ext 5 (NewSwitch (mkConfig "/ip4/127.0.0.1/tcp/30001" [] "" "" 0) Demo.quiet)
    = Done (Some (ExtErr Base64Decode 1))
           (NewSwitch (mkConfig "/ip4/127.0.0.1/tcp/30001" [] "" "" 0) Demo.quiet) /\
  Start Demo.ext 5 (NewSwitch (mkConfig "/ip4/127.0.0.1/tcp/30001" [] "k" "" 0) Demo.quiet)
    = Done (Some (ExtErr UnmarshalKey 9))
           (NewSwitch (mkConfig "/ip4/127.0.0.1/tcp/30001" [] "k" "" 0) Demo.quiet) /\
  (exists w', Start Demo.ext 5 (NewSwitch (mkConfig "" [] "a2V5" "" 0) Demo.quiet)
              = Done (Some (ExtErr NewHost 2)) w') /\
  (exists w', Start Demo.ext 5 (NewSwitch (Demo.cfg []) Demo.no_dht)
              = Done (Some (ExtErr NewDHT 10)) w') /\
  (exists w', Start Demo.ext 5
                (NewSwitch (Demo.cfg ["QmGhost"])
                           (Demo.with_routing ["QmCarol"] Demo.quiet))
              = Done None w').
Proof.
  pose proof (Start_errors Demo.ext) as (Hkey & Hpriv & Hhost & Hdht & _ & Hskip).
  split; [by apply Hkey|].
  split; [by eapply Hpriv|].
  split; [by eapply Hhost|].
  split; [by eapply (Hdht 5 _ _ _ (HostHandle 0))|].
  apply (Hskip (fun n => n = Demo.with_routing ["QmCarol"] Demo.quiet) 4 _
           (String.list_byte_of_string "a2V5")
           (PrivKeyOf (String.list_byte_of_string "a2V5"))
           (HostHandle 0) (Demo.with_routing ["QmCarol"] Demo.quiet)
           "/ip4/127.0.0.1/tcp/30001" [] (DHTHandle 0)
           (Demo.with_routing ["QmCarol"] Demo.quiet)
           (Demo.with_routing ["QmCarol"] Demo.quiet)); try reflexivity.
  - constructor; [|constructor]. intros n ->. by eexists _, _.
  - intros n ->. by eexists _, _.
Defined.


(** * libs/utils.go: identifiers, sums, the root directory *)

Section Utils.
Import libs.
Local Open Scope Z_scope.

Lemma wrap64_mod63 z : wrap64 z mod 2 ^ 63 = z mod 2 ^ 63.
Proof.
  unfold wrap64.
  change (2 ^ 64) with 18446744073709551616.
  change (2 ^ 63) with 9223372036854775808.
  Z.div_mod_to_equations. lia.
Qed.

Lemma wrap64_small z : - 2 ^ 63 <= z < 2 ^ 63 -> wrap64 z = z.
Proof.
  unfold wrap64.
  change (2 ^ 64) with 18446744073709551616.
  change (2 ^ 63) with 9223372036854775808.
  intros Hz. Z.div_mod_to_equations. lia.
Qed.

(** What the mask leaves of the wrapped sum. *)
Lemma randId_mod nano r1 r2 s1 s2 :
  randId nano r1 r2 s1 s2 =
    (Z.shiftr r1 (to_uint s1) + Z.shiftr r2 (to_uint s2) + Z.shiftr nano 1)
      mod 2 ^ 63.
Proof.
  unfold randId, add64.
  change 0x7FFFFFFFFFFFFFFF with (Z.ones 63).
  rewrite Z.land_ones by lia.
  rewrite wrap64_mod63, <- Zplus_mod_idemp_l, wrap64_mod63, Zplus_mod_idemp_l.
  reflexivity.
Qed.

Section GenRandomID_facts.
Context {Rand : Type}.
Variables (NewSource : Z -> Rand) (Int63 : Rand -> Z * Rand)
          (Intn : Z -> Rand -> Z * Rand).

(** X1: whatever the clock and the generator give, the identifier fits in 63
    bits: the mask clears the sign bit before the conversion to [uint64]. *)
Theorem GenRandomID_range nano :
  0 <= GenRandomID Rand NewSource Int63 Intn nano < 2 ^ 63.
Proof.
  unfold GenRandomID.
  destruct (Int63 (NewSource nano)) as [r1 g1].
  destruct (Int63 g1) as [r2 g2].
  destruct (Intn 16 g2) as [n1 g3].
  destruct (Intn 8 g3) as [n2 g4].
  rewrite randId_mod. unfold to_uint64.
  change (2 ^ 64) with 18446744073709551616.
  change (2 ^ 63) with 9223372036854775808.
  Z.div_mod_to_equations. lia.
Qed.

Hypothesis Int63_range : forall g, 0 <= fst (Int63 g) < 2 ^ 63.
Hypothesis Intn_range : forall n g, 0 < n -> 0 <= fst (Intn n g) < n.

(** X2: with a clock below 2^62 (until the year 2116) nothing wraps: the
    identifier is half the clock reading plus the two draws, shifted right
    by 2 to 17 and by 1 to 8 bits, and so lies less than 3 * 2^61 above
    half the clock reading. *)
Theorem GenRandomID_value nano :
  0 <= nano < 2 ^ 62 ->
  let '(randNum1, randNum2, n1, n2) := draws Rand NewSource Int63 Intn nano in
  GenRandomID Rand NewSource Int63 Intn nano =
    randNum1 / 2 ^ (n1 + 2) + randNum2 / 2 ^ (n2 + 1) + nano / 2 /\
  0 <= n1 < 16 /\ 0 <= n2 < 8 /\
  nano / 2 <= GenRandomID Rand NewSource Int63 Intn nano < nano / 2 + 3 * 2 ^ 61.
Proof.
  intros Hnano. unfold GenRandomID, draws.
  pose proof (Int63_range (NewSource nano)) as H1.
  destruct (Int63 (NewSource nano)) as [r1 ga]. simpl in *.
  pose proof (Int63_range ga) as H2.
  destruct (Int63 ga) as [r2 gb]. simpl in *.
  pose proof (Intn_range 16 gb ltac:(lia)) as H3.
  destruct (Intn 16 gb) as [n1 gc]. simpl in *.
  pose proof (Intn_range 8 gc ltac:(lia)) as H4.
  destruct (Intn 8 gc) as [n2 gd]. simpl in *.
  rewrite randId_mod. unfold to_uint64, to_uint, add64.
  rewrite !wrap64_small by (change (2 ^ 63) with 9223372036854775808; lia).
  rewrite (Z.mod_small (n1 + 2)), (Z.mod_small (n2 + 1))
    by (change (2 ^ 64) with 18446744073709551616; lia).
  rewrite !Z.shiftr_div_pow2 by lia.
  assert (B1 : 0 <= r1 / 2 ^ (n1 + 2) < 2 ^ 61).
  { split; [apply Z.div_pos; lia|].
    apply Z.div_lt_upper_bound; [lia|].
    apply Z.lt_le_trans with (2 ^ 63); [lia|].
    change (2 ^ 63) with (2 ^ 2 * 2 ^ 61).
    apply Z.mul_le_mono_nonneg_r; [lia|].
    apply Z.pow_le_mono_r; lia. }
  assert (B2 : 0 <= r2 / 2 ^ (n2 + 1) < 2 ^ 62).
  { split; [apply Z.div_pos; lia|].
    apply Z.div_lt_upper_bound; [lia|].
    apply Z.lt_le_trans with (2 ^ 63); [lia|].
    change (2 ^ 63) with (2 ^ 1 * 2 ^ 62).
    apply Z.mul_le_mono_nonneg_r; [lia|].
    apply Z.pow_le_mono_r; lia. }
  assert (B3 : 0 <= nano / 2 ^ 1 < 2 ^ 61).
  { change (2 ^ 1) with 2. change (2 ^ 62) with (2 * 2 ^ 61) in Hnano.
    split; [apply Z.div_pos; lia|]. apply Z.div_lt_upper_bound; lia. }
  change (2 ^ 1) with 2 in *.
  assert (Hs : 0 <= r1 / 2 ^ (n1 + 2) + r2 / 2 ^ (n2 + 1) + nano / 2 < 2 ^ 63).
  { change (2 ^ 63) with (2 ^ 61 + 2 ^ 62 + 2 ^ 61). lia. }
  rewrite (Z.mod_small _ (2 ^ 63)) by exact Hs.
  rewrite Z.mod_small by (change (2 ^ 64) with (2 * 2 ^ 63); lia).
  split; [done|]. split; [done|]. split; [done|].
  change (2 ^ 62) with (2 * 2 ^ 61) in B2. lia.
Qed.

End GenRandomID_facts.

(** ** GetSum *)

Lemma unhex_hex_digit n : (n < 16)%N -> unhex_digit (hex_digit n) = Some n.
Proof.
  intros Hn. destruct n as [|p]; [reflexivity|].
  do 5 (destruct p as [p|p|]; try reflexivity; try (exfalso; lia)).
Qed.

Lemma unhex_hex_byte b cs :
  unhex_list (hex_byte b ++ cs) =
    match unhex_list cs with Some bs => Some (b :: bs) | None => None end.
Proof.
  unfold hex_byte. cbn [app unhex_list].
  pose proof (Byte.to_N_bounded b) as Hb.
  assert (Hhi : (Byte.to_N b / 16 < 16)%N)
    by (apply N.Div0.div_lt_upper_bound; lia).
  assert (Hlo : (Byte.to_N b mod 16 < 16)%N) by (apply N.mod_lt; lia).
  rewrite !unhex_hex_digit by done.
  destruct (unhex_list cs) as [bs|]; [|done].
  by rewrite <- N.div_mod, Byte.of_to_N by lia.
Qed.

Lemma unhex_list_hex bs : unhex_list (concat (map hex_byte bs)) = Some bs.
Proof.
  induction bs as [|b bs IH]; [done|].
  cbn [map concat]. by rewrite unhex_hex_byte, IH.
Qed.

Lemma length_hex_bytes bs : length (concat (map hex_byte bs)) = (2 * length bs)%nat.
Proof.
  induction bs as [|b bs IH]; [done|].
  cbn [map concat]. rewrite length_app, IH. simpl. lia.
Qed.

Lemma string_length_of_list l :
  String.length (String.string_of_list_ascii l) = length l.
Proof. induction l as [|c l IH]; simpl; congruence. Qed.

(** X3: the sum is the digest in hexadecimal, two characters for each of its
    bytes, and the digest can be read back from it: two inputs have the
    same sum only if they have the same digest. *)
Theorem GetSum_is_the_digest (sha256 : list Byte.byte -> list Byte.byte) :
  (forall b, String.length (GetSum sha256 b) = (2 * length (sha256 b))%nat) /\
  (forall b, unhex (GetSum sha256 b) = Some (sha256 b)) /\
  (forall a b, GetSum sha256 a = GetSum sha256 b -> sha256 a = sha256 b).
Proof.
  assert (Hback : forall b, unhex (GetSum sha256 b) = Some (sha256 b)).
  { intros b. unfold unhex, GetSum, hex.
    rewrite String.list_ascii_of_string_of_list_ascii. apply unhex_list_hex. }
  split; [|split; [exact Hback|]].
  - intros b. unfold GetSum, hex.
    by rewrite string_length_of_list, length_hex_bytes.
  - intros a b Heq. pose proof (Hback a) as Ha. rewrite Heq, Hback in Ha.
    by injection Ha.
Qed.

(** ** The root directory *)

Section RootDir_facts.
Variable execDir : string.

Lemma length_le_0 (s : string) : (String.length s <=? 0)%nat = true <-> s = "".
Proof. destruct s; simpl; split; congruence. Qed.

(** X4: once [envCfg] is not empty no call changes it, and every
    [GetCurRootDir] returns it. *)
Theorem root_dir_is_final calls envCfg :
  envCfg <> "" ->
  run_root execDir calls envCfg =
    (map (fun _ => envCfg) (filter is_get calls), envCfg).
Proof.
  intros Hne.
  assert (Hlen : (String.length envCfg <=? 0)%nat = false).
  { destruct (String.length envCfg <=? 0)%nat eqn:E; [|done].
    by apply length_le_0 in E. }
  induction calls as [|[path|] calls IH]; simpl.
  - done.
  - unfold SetRootDir. by rewrite Hlen, IH.
  - unfold GetCurRootDir. by rewrite Hlen, IH.
Qed.

(** X5: the first call that has a directory to give decides: a [SetRootDir]
    with a path that is not empty, or a [GetCurRootDir] when the directory
    of the executable is known.  The calls before it leave [envCfg] empty,
    the [GetCurRootDir]s among them returning the empty string; every call
    after it sees its directory. *)
Theorem root_dir_first_wins before c after dir :
  Forall (fun c => fixes execDir c = None) before ->
  fixes execDir c = Some dir ->
  run_root execDir (before ++ c :: after) "" =
    (map (fun _ => "") (filter is_get before) ++
     map (fun _ => dir) (filter is_get (c :: after)),
     dir).
Proof.
  intros Hbefore Hc.
  assert (Hdir : dir <> "").
  { intros ->. destruct c as [path|]; simpl in Hc.
    - destruct path; simpl in Hc; discriminate.
    - destruct execDir; simpl in Hc; discriminate. }
  induction Hbefore as [|b before Hb Hbefore IH].
  - simpl app. destruct c as [path|]; simpl in Hc |- *.
    + destruct (String.length path <=? 0)%nat; [discriminate|].
      injection Hc as ->. unfold SetRootDir. simpl.
      by rewrite (root_dir_is_final after dir Hdir).
    + destruct (String.length execDir <=? 0)%nat; [discriminate|].
      injection Hc as Hc. subst dir. unfold GetCurRootDir. simpl.
      by rewrite (root_dir_is_final after execDir Hdir).
  - destruct b as [path|]; simpl in Hb |- *.
    + destruct (String.length path <=? 0)%nat eqn:E; [|discriminate].
      apply length_le_0 in E as ->. unfold SetRootDir. simpl.
      by rewrite IH.
    + destruct (String.length execDir <=? 0)%nat eqn:E; [|discriminate].
      unfold GetCurRootDir. simpl.
      apply length_le_0 in E. rewrite E in IH |- *.
      by rewrite IH.
Qed.

End RootDir_facts.

End Utils.

(** * What the operations of the switch keep *)

Section Frames.
Context {Module : Type} `{Countable Module} {Reactor Net : Type}.
Variable X : @Externals Module _ _ Reactor Net.
Implicit Types w : @World Module _ _ Reactor Net.
Implicit Types st : @Switch Module _ _ Reactor.

Variable P : @Switch Module _ _ Reactor -> Prop.
Local Abbreviation keeps := (@keeps Module _ _ Reactor Net P _).

Lemma keeps_ret {A} (a : A) : keeps (ret a).
Proof. by intros w. Qed.

Lemma keeps_panic {A} : keeps (@panic _ _ _ _ _ A).
Proof. by intros w. Qed.

Lemma keeps_spin {A} : keeps (@spin _ _ _ _ _ A).
Proof. by intros w. Qed.

Lemma keeps_bind {A B} (m : M A) (k : A -> M B) :
  keeps m -> (forall a, keeps (k a)) -> keeps (bind m k).
Proof.
  intros Hm Hk w Hw. unfold bind. specialize (Hm w Hw).
  destruct (m w) as [a w'| |]; [|done..]. by apply Hk.
Qed.

Lemma keeps_get_sw : keeps get_sw.
Proof. by intros w. Qed.

Lemma keeps_emit e : keeps (emit e).
Proof. by intros w. Qed.

Lemma keeps_call {A} (f : Net -> A * Net) : keeps (call f).
Proof. intros w Hw. unfold call. by destruct (f (w_ext w)). Qed.

Lemma keeps_act (f : Net -> Net) : keeps (act f).
Proof. by intros w. Qed.

Lemma keeps_read {A} (f : Net -> A) : keeps (read f).
Proof. by intros w. Qed.

Lemma keeps_upd_sw (f : Switch -> Switch) :
  (forall st, P st -> P (f st)) -> keeps (upd_sw f).
Proof. intros Hf w Hw. simpl. by apply Hf. Qed.

Lemma keeps_for_range {A} (l : list A) (body : A -> M unit) :
  (forall a, keeps (body a)) -> keeps (for_range l body).
Proof.
  intros Hb. induction l as [|a l IH]; simpl.
  - apply keeps_ret.
  - apply keeps_bind; [apply Hb|]. intros _. apply IH.
Qed.

Lemma keeps_fan_out (f : Peer -> M bool) n (pending : list Peer) :
  (forall p, keeps (f p)) -> keeps (fan_out X f n pending).
Proof.
  intros Hf. revert pending. induction n as [|n IH]; intros pending; simpl.
  - apply keeps_ret.
  - apply keeps_bind; [apply keeps_read|]. intros i.
    destruct (pending !! i); [|apply keeps_ret].
    apply keeps_bind; [apply Hf|]. intros _. apply IH.
Qed.

Create HintDb frames discriminated.
#[local] Hint Unfold
  libp2p_New host_SetStreamHandler dht_New kdht_Bootstrap RoutingTable_ListPeers
  RoutingTable_RemovePeer host_Connect host_NewStream Peerstore_PeerInfo
  stream_Close NewDefaultPeer Peer_Validate Peer_Send Peer_Start PeerSet_Find
  PeerSet_Range the_host the_kdht log_Info log_Error
  Broadcast Send genPeerMultiID has_valid_peer dialPeersAsync
  connect handleStream bootstrap_try bootstrap acceptTick Start : frames.

(** The property survives a peer being put into the set, and the host,
    the address and the DHT client being assigned. *)
Hypothesis P_Add :
  forall p st, P st -> P (with_peers (<[peer_ID p := p]> (sw_peers st)) st).
Hypothesis P_host : forall h st, P st -> P (with_host (Some h) st).
Hypothesis P_id : forall a st, P st -> P (with_id (Some a) st).
Hypothesis P_kdht : forall d st, P st -> P (with_kdht d st).

Lemma keeps_Add p : keeps (PeerSet_Add p).
Proof. intros w Hw. simpl. by apply P_Add. Qed.

Ltac keep :=
  repeat first
    [ progress intros
    | apply keeps_ret | apply keeps_panic | apply keeps_spin
    | apply keeps_bind
    | apply keeps_get_sw | apply keeps_emit | apply keeps_call
    | apply keeps_act | apply keeps_read | apply keeps_Add
    | apply keeps_upd_sw; first [apply P_host | apply P_id | apply P_kdht]
    | apply keeps_for_range | apply keeps_fan_out
    | match goal with
      | |- keeps (match ?x with _ => _ end) => destruct x
      end
    | progress autounfold with frames ].

Lemma keeps_dialPeersAsync id : keeps (dialPeersAsync X id).
Proof. keep. Qed.

Lemma keeps_handleStream s : keeps (handleStream X s).
Proof. keep. Qed.

Lemma keeps_connect m : keeps (connect X m).
Proof. keep. Qed.

Lemma keeps_bootstrap_retry fuel : keeps (bootstrap_retry X fuel).
Proof.
  induction fuel as [|fuel IH]; simpl; [apply keeps_spin|].
  keep. apply IH.
Qed.


Lemma keeps_Start fuel : keeps (Start X fuel).
Proof. keep. apply keeps_bootstrap_retry. Qed.

(** [AddReactor] is the one operation that writes the reactor table. *)
Lemma keeps_run_op op :
  (forall mo f st, op = OpAddReactor mo f -> sw_reactor st !! mo = None ->
     P st -> P (with_reactor (<[mo := f]> (sw_reactor st)) st)) ->
  keeps (run_op X op).
Proof.
  intros P_reactor.
  destruct op as [mo f| | | | | | | |]; simpl; try (keep; apply keeps_bootstrap_retry).
  intros w Hw. unfold bind.
  destruct (sw_reactor (w_sw w) !! mo) as [f0|] eqn:E.
  - rewrite AddReactor_taken by (unfold registered; rewrite E; eauto). done.
  - rewrite AddReactor_fresh by done. simpl. by apply P_reactor.
Qed.

Lemma keeps_run_ops ops :
  (forall mo f st, In (OpAddReactor mo f) ops -> sw_reactor st !! mo = None ->
     P st -> P (with_reactor (<[mo := f]> (sw_reactor st)) st)) ->
  keeps (run_ops X ops).
Proof.
  intros P_reactor. unfold run_ops.
  induction ops as [|op ops IH]; simpl; [apply keeps_ret|].
  apply keeps_bind.
  - apply keeps_run_op. intros mo f st ->. apply P_reactor. by left.
  - intros _. apply IH. intros mo f st Hin. apply P_reactor. by right.
Qed.

End Frames.

(** * Invariants of the switch *)

Section Invariants.
Context {Module : Type} `{Countable Module} {Reactor Net : Type}.
Variable X : @Externals Module _ _ Reactor Net.
Implicit Types w : @World Module _ _ Reactor Net.
Implicit Types st : @Switch Module _ _ Reactor.

Lemma run_ops_keeps (P : Switch -> Prop) ops w w' :
  (forall p st, P st -> P (with_peers (<[peer_ID p := p]> (sw_peers st)) st)) ->
  (forall h st, P st -> P (with_host (Some h) st)) ->
  (forall a st, P st -> P (with_id (Some a) st)) ->
  (forall d st, P st -> P (with_kdht d st)) ->
  (forall mo f st, In (OpAddReactor mo f) ops -> sw_reactor st !! mo = None ->
     P st -> P (with_reactor (<[mo := f]> (sw_reactor st)) st)) ->
  run_ops X ops w = Done tt w' ->
  P (w_sw w) -> P (w_sw w').
Proof.
  intros HA Hh Hi Hk Hr Hrun HP.
  pose proof (keeps_run_ops X P HA Hh Hi Hk ops Hr w HP) as Hkeep.
  by rewrite Hrun in Hkeep.
Qed.


(** X7: the reactor table is written once per module: a registration survives
    every later operation, and only [AddReactor] writes to the table. *)
Theorem reactor_table_write_once ops w w' :
  run_ops X ops w = Done tt w' ->
  (forall mo f, registered w mo = Some f -> registered w' mo = Some f) /\
  (Forall (fun op => is_AddReactor op = false) ops ->
   sw_reactor (w_sw w') = sw_reactor (w_sw w)).
Proof.
  intros Hrun. split.
  - intros mo f Hreg. unfold registered in *.
    apply (run_ops_keeps (fun st => sw_reactor st !! mo = Some f) ops w w');
      try done.
    intros mo' f' st _ Hnone Hst. simpl.
    rewrite lookup_insert_ne; [done|]. intros ->. congruence.
  - intros Hno.
    apply (run_ops_keeps (fun st => sw_reactor st = sw_reactor (w_sw w)) ops w w');
      try done.
    intros mo f st Hin _ _. rewrite Forall_forall in Hno.
    apply list_elem_of_In in Hin. by specialize (Hno _ Hin).
Qed.

(** X8: no operation takes an identity out of the set: an entry is replaced
    by another peer of the same identity or stays. *)
Theorem peer_entries_never_removed ops w w' id :
  run_ops X ops w = Done tt w' ->
  is_Some (sw_peers (w_sw w) !! id) ->
  is_Some (sw_peers (w_sw w') !! id).
Proof.
  intros Hrun.
  apply (run_ops_keeps (fun st => is_Some (sw_peers st !! id)) ops w w');
    try done.
  intros p st Hst. simpl. rewrite lookup_insert. case_decide; eauto.
Qed.

End Invariants.

(** * Start, path by path *)

Section StartPaths.
Context {Module : Type} `{Countable Module} {Reactor Net : Type}.
Variable X : @Externals Module _ _ Reactor Net.
Implicit Types w : @World Module _ _ Reactor Net.
Implicit Types st : @Switch Module _ _ Reactor.

Lemma new_events_same w st (n : Net) : new_events w (mkWorld st n (w_trace w)) = [].
Proof. unfold new_events. simpl. by rewrite drop_all. Qed.

Lemma new_events_self w : new_events w w = [].
Proof. unfold new_events. by rewrite drop_all. Qed.


(** X10: when [Start] returns an error it has tried no bootstrap candidate and
    has not launched the discovery routine, and the set and the reactor
    table are as they were.  If it failed on the key or on the host the
    switch is untouched; if it failed on the DHT client or on the bootstrap
    of the DHT, the host is up and stays assigned, with the stream handler
    registered on it, so inbound streams keep arriving at [handleStream]. *)
Theorem Start_failure fuel w e w' :
  Start X fuel w = Done (Some e) w' ->
  sw_peers (w_sw w') = sw_peers (w_sw w) /\
  sw_reactor (w_sw w') = sw_reactor (w_sw w) /\
  filter is_discovery_event (new_events w w') = [] /\
  match e with
  | ExtErr NewDHT _ =>
      exists h, sw_host (w_sw w') = Some h /\ sw_kdht (w_sw w') = None /\
                ESetStreamHandler h protocolPrefix ∈ new_events w w'
  | ExtErr DHTBootstrap _ =>
      exists h d, sw_host (w_sw w') = Some h /\ sw_kdht (w_sw w') = Some d /\
                  ESetStreamHandler h protocolPrefix ∈ new_events w w'
  | _ => w_sw w' = w_sw w
  end.
Proof.
  rewrite Start_run. simpl.
  destruct (x_DecodeString X _) as [c|privData].
  { intros [= <- <-]. by rewrite new_events_self. }
  destruct (x_UnmarshalPrivateKey X privData) as [c|priv].
  { intros [= <- <-]. by rewrite new_events_self. }
  destruct (x_New X _ priv (w_ext w)) as [[c|h] n1].
  { intros [= <- <-]. by rewrite new_events_app. }
  destruct (x_Addrs X h _) as [|addr addrs]; [done|].
  destruct (x_NewDHT X h _) as [[c|d] n3].
  { intros [= <- <-]. unfold log_to, Start_world. simpl.
    rewrite <- app_assoc, new_events_app. simpl.
    repeat split; try done. exists h. repeat split; try done.
    apply list_elem_of_In. simpl. tauto. }
  rewrite (bootstrap_run X (Start_world X w h (Some d) addr n3) d eq_refl).
  destruct (x_DHTBootstrap X d _) as [[c|] n4].
  - intros [= <- <-]. unfold log_to, Start_world. simpl.
    rewrite <- !app_assoc, new_events_app. simpl.
    repeat split; try done. exists h, d. repeat split; try done.
    apply list_elem_of_In. simpl. tauto.
  - destruct (bootstrap_retry X fuel _) as [[e'|] w2| |] eqn:Hretry; try done.
    by apply bootstrap_retry_Done in Hretry as [? _].
Qed.

(** X11: a host that reports no listen address makes [Start] panic on
    [Addrs()[0]]: by then the host is assigned and the stream handler
    registered, and nothing else has happened. *)
Theorem Start_panics_without_listen_address fuel w privData priv h n1 :
  x_DecodeString X (PrivateKey (sw_cfg (w_sw w))) = inr privData ->
  x_UnmarshalPrivateKey X privData = inr priv ->
  x_New X (Address (sw_cfg (w_sw w))) priv (w_ext w) = (inr h, n1) ->
  x_Addrs X h (x_SetStreamHandler X h n1) = [] ->
  exists w',
    Start X fuel w = Panic w' /\
    w_sw w' = with_host (Some h) (w_sw w) /\
    new_events w w' =
      [ENewHost (Address (sw_cfg (w_sw w))); ESetStreamHandler h protocolPrefix].
Proof.
  intros Hkey Hpriv Hnew Haddr. rewrite Start_run. simpl.
  rewrite Hkey, Hpriv, Hnew, Haddr. eexists. split; [done|].
  split; [done|]. by rewrite new_events_app.
Qed.

End StartPaths.

(** * Admission, path by path *)

Section AdmissionPaths.
Context {Module : Type} `{Countable Module} {Reactor Net : Type}.
Variable X : @Externals Module _ _ Reactor Net.
Implicit Types w : @World Module _ _ Reactor Net.
Implicit Types (id : string) (s : Stream) (h : Host).

Ltac run_calls :=
  unfold PeerSet_Find, Peer_Validate, the_host, the_kdht, host_NewStream,
    Peerstore_PeerInfo, NewDefaultPeer, stream_Close, RoutingTable_RemovePeer,
    PeerSet_Add, Peer_Start, log_Error, log_Info, emit, call, act, read,
    upd_sw, get_sw, bind, ret, panic; simpl.

(** X12: on the outbound path, when the stream cannot be opened,
    [dialPeersAsync] logs and returns the error of [NewStream]; the switch
    is as it was and, unlike after a failed construction, the routing
    table is left alone. *)
Theorem dialPeersAsync_stream_failure w id h c n1 :
  sw_host (w_sw w) = Some h ->
  valid_entry X w id = None ->
  x_NewStream X h id (w_ext w) = (inl c, n1) ->
  dialPeersAsync X id w =
    Done (Some (ExtErr HostNewStream c))
         (mkWorld (w_sw w) n1
            (w_trace w ++
               [ENewStream h id;
                ELog LError
                  "host make newstream fail @ DialPeersAsync, peer_id: %s, err: %v"
                  [id]])).
Proof.
  intros Hh Hv Hs. unfold dialPeersAsync, bind at 1.
  rewrite has_valid_peer_run, Hv. run_calls. rewrite Hh, Hs. simpl.
  by rewrite <- app_assoc.
Qed.

(** X13: on the outbound path, when there is no valid entry, the stream opens
    and the peer is constructed, [dialPeersAsync] returns nil having put
    the new peer under the identity (in place of a stale entry, if there
    was one) and started it.  The lookup of the identity then gives the new
    peer, and as long as that peer validates a further dial is discarded. *)
Theorem dialPeersAsync_success w id h s n1 :
  sw_host (w_sw w) = Some h ->
  valid_entry X w id = None ->
  x_NewStream X h id (w_ext w) = (inr s, n1) ->
  x_NewDefaultPeer X (mkAddrInfo id (x_PeerstoreAddrs X h id n1)) s
                   (sw_reactor (w_sw w)) n1 = None ->
  let peer := mkPeer id s in
  exists w',
    dialPeersAsync X id w = Done None w' /\
    w_sw w' = with_peers (<[id := peer]> (sw_peers (w_sw w))) (w_sw w) /\
    w_ext w' = x_Start X peer n1 /\
    new_events w w' =
      [ENewStream h id;
       ENewPeer (mkAddrInfo id (x_PeerstoreAddrs X h id n1)) s;
       EPeerStart peer] /\
    PeerSet_Find id w' = Done (inr peer) w' /\
    (forall w'', w_sw w'' = w_sw w' ->
       x_Validate X peer (w_ext w'') = None ->
       dialPeersAsync X id w'' = Done None w'').
Proof.
  intros Hh Hv Hs Hp peer. subst peer. eexists. split.
  { unfold dialPeersAsync, bind at 1.
    rewrite has_valid_peer_run, Hv. run_calls. rewrite Hh, Hs. simpl.
    rewrite Hp. simpl. by rewrite <- !app_assoc. }
  split; [done|]. split; [done|]. split; [by rewrite new_events_app|].
  split.
  { unfold PeerSet_Find, get_sw, bind. simpl. by rewrite lookup_insert_eq. }
  intros w'' Hsw Hvalid. apply (dialPeersAsync_keep X w'' id (mkPeer id s)).
  unfold valid_entry. rewrite Hsw. simpl. by rewrite lookup_insert_eq, Hvalid.
Qed.

(** X14: whatever the network does, [dialPeersAsync] returns nil only when it
    found a valid entry and did nothing, or put a new peer under the
    identity and started it; and it returns an error, which is that of the
    stream or of the construction, only with the switch as it was. *)
Theorem dialPeersAsync_outcomes w id r w' :
  dialPeersAsync X id w = Done r w' ->
  match r with
  | None =>
      (is_Some (valid_entry X w id) /\ w' = w) \/
      (valid_entry X w id = None /\
       exists s,
         sw_peers (w_sw w') = <[id := mkPeer id s]> (sw_peers (w_sw w)) /\
         last (w_trace w') = Some (EPeerStart (mkPeer id s)))
  | Some e =>
      valid_entry X w id = None /\
      w_sw w' = w_sw w /\
      exists c, e = ExtErr HostNewStream c \/ e = ExtErr NewPeer c
  end.
Proof.
  unfold dialPeersAsync, bind at 1. rewrite has_valid_peer_run.
  destruct (valid_entry X w id) as [old|] eqn:Hv.
  { intros [= <- <-]. left. eauto. }
  run_calls.
  destruct (sw_host (w_sw w)) as [h|]; [|done]. simpl.
  destruct (x_NewStream X h id (w_ext w)) as [[c|s] n1]; simpl.
  { intros [= <- <-]. eauto. }
  destruct (x_NewDefaultPeer X _ s (sw_reactor (w_sw w)) n1) as [c|]; simpl.
  - destruct (sw_kdht (w_sw w)) as [d|]; [|done]. simpl.
    intros [= <- <-]. eauto.
  - intros [= <- <-]. right. split; [done|]. exists s. simpl.
    split; [done|]. by rewrite last_snoc.
Qed.

(** X15: on the inbound path, when there is no valid entry and the peer cannot
    be constructed, [handleStream] writes one line to the log and returns:
    the stream it was handed is not closed and the routing table is not
    touched, unlike on the outbound path. *)
Theorem handleStream_construction_failure w s h c :
  sw_host (w_sw w) = Some h ->
  valid_entry X w (x_RemotePeer X s) = None ->
  x_NewDefaultPeer X
    (mkAddrInfo (x_RemotePeer X s) (x_PeerstoreAddrs X h (x_RemotePeer X s) (w_ext w)))
    s (sw_reactor (w_sw w)) (w_ext w) = Some c ->
  handleStream X s w =
    Done tt (log_to w
      [ELog LError "new remote peer fail @ handleStream, peer_id: %s, err: %v"
            [x_RemotePeer X s]]).
Proof.
  intros Hh Hv Hp. unfold handleStream, bind at 1.
  rewrite has_valid_peer_run, Hv. run_calls. rewrite Hh. simpl. by rewrite Hp.
Qed.

(** X16: on the inbound path, when there is no valid entry and the peer is
    constructed, [handleStream] puts the peer of that stream under the
    remote identity (in place of a stale entry, if there was one), starts
    it and logs the success; no stream is opened.  The lookup of the
    identity then gives the new peer. *)
Theorem handleStream_success w s h :
  sw_host (w_sw w) = Some h ->
  valid_entry X w (x_RemotePeer X s) = None ->
  let remote := x_RemotePeer X s in
  let info := mkAddrInfo remote (x_PeerstoreAddrs X h remote (w_ext w)) in
  let peer := mkPeer remote s in
  x_NewDefaultPeer X info s (sw_reactor (w_sw w)) (w_ext w) = None ->
  exists w',
    handleStream X s w = Done tt w' /\
    w_sw w' = with_peers (<[remote := peer]> (sw_peers (w_sw w))) (w_sw w) /\
    w_ext w' = x_Start X peer (w_ext w) /\
    new_events w w' =
      [ENewPeer info s;
       EPeerStart peer;
       ELog LInfo
         "build stream success from a new remote peer @ handleStream, peer_id: %s"
         [remote]] /\
    PeerSet_Find remote w' = Done (inr peer) w'.
Proof.
  intros Hh Hv remote info peer Hp. subst remote info peer. eexists. split.
  { unfold handleStream, bind at 1.
    rewrite has_valid_peer_run, Hv. run_calls. rewrite Hh. simpl.
    rewrite Hp. simpl. by rewrite <- !app_assoc. }
  split; [done|]. split; [done|]. split; [by rewrite new_events_app|].
  unfold PeerSet_Find, get_sw, bind. simpl. by rewrite lookup_insert_eq.
Qed.

(** X17: once the host is assigned [handleStream] returns, whatever the
    network does; and whenever it returns it has closed no stream and has
    not touched the routing table, has left every entry of another
    identity as it was, and has changed the outside world by at most the
    start of one peer. *)
Theorem handleStream_outcomes w s :
  (is_Some (sw_host (w_sw w)) -> exists w', handleStream X s w = Done tt w') /\
  (forall w',
     handleStream X s w = Done tt w' ->
     filter is_cleanup_event (new_events w w') = [] /\
     (forall id, id <> x_RemotePeer X s ->
        sw_peers (w_sw w') !! id = sw_peers (w_sw w) !! id) /\
     (w_ext w' = w_ext w \/
      w_ext w' = x_Start X (mkPeer (x_RemotePeer X s) s) (w_ext w))).
Proof.
  split.
  - intros [h Hh]. unfold handleStream, bind at 1. rewrite has_valid_peer_run.
    destruct (valid_entry X w (x_RemotePeer X s)) as [old|]; run_calls;
      [by eexists|].
    rewrite Hh. simpl.
    destruct (x_NewDefaultPeer X _ s (sw_reactor (w_sw w)) (w_ext w));
      by eexists.
  - intros w'. unfold handleStream, bind at 1. rewrite has_valid_peer_run.
    destruct (valid_entry X w (x_RemotePeer X s)) as [old|]; run_calls.
    { intros [= <-]. rewrite new_events_app. simpl. auto. }
    destruct (sw_host (w_sw w)) as [h|]; simpl; [|done].
    destruct (x_NewDefaultPeer X _ s (sw_reactor (w_sw w)) (w_ext w)) as [c|];
      simpl; intros [= <-]; simpl.
    + rewrite new_events_app. simpl. auto.
    + rewrite <- !app_assoc, new_events_app. simpl.
      split; [done|]. split; [|auto].
      intros id Hid. by rewrite lookup_insert_ne.
Qed.

(** X18: a peer admitted on the inbound path is the one a following [Send] to
    its identity writes to: the payload and the channel go to the peer of
    the admitted stream, and [Send] returns nil exactly if that send
    succeeds. *)
Theorem admitted_peer_is_Send_target w s h pr chID msg :
  sw_host (w_sw w) = Some h ->
  valid_entry X w (x_RemotePeer X s) = None ->
  x_NewDefaultPeer X
    (mkAddrInfo (x_RemotePeer X s) (x_PeerstoreAddrs X h (x_RemotePeer X s) (w_ext w)))
    s (sw_reactor (w_sw w)) (w_ext w) = None ->
  x_Decode X pr = inr (x_RemotePeer X s) ->
  let peer := mkPeer (x_RemotePeer X s) s in
  exists w1 w2,
    handleStream X s w = Done tt w1 /\
    let ok := fst (x_Send X peer chID msg (w_ext w1)) in
    Send X pr chID msg w1 = Done (if ok then None else Some ErrSendFailed) w2 /\
    new_events w1 w2 = [EPeerSend peer chID msg ok].
Proof.
  intros Hh Hv Hp Hdec peer. subst peer.
  destruct (handleStream_success w s h Hh Hv Hp)
    as (w1 & Hrun & Hsw & Hext & _ & _).
  exists w1. eexists. split; [exact Hrun|]. simpl.
  rewrite Send_run.
  unfold Send_result, Send_events, Send_ext, Send_target, peer_Decode.
  rewrite Hdec, Hsw. simpl. rewrite lookup_insert_eq. simpl.
  split; [done|]. by rewrite new_events_app.
Qed.

End AdmissionPaths.

(** * Connecting and discovery, path by path *)

Section DiscoveryPaths.
Context {Module : Type} `{Countable Module} {Reactor Net : Type}.
Variable X : @Externals Module _ _ Reactor Net.
Implicit Types w : @World Module _ _ Reactor Net.
Implicit Types (id m : string) (h : Host) (d : DHT).

(** X19: with host and DHT client in place [connect] returns, and what it
    returns is the error of the first of parse, address info and host
    connect that fails, or nil if none does; when it returns an error it
    has not tried to open a stream, and the switch is as it was. *)
Theorem connect_returns w m h d :
  sw_host (w_sw w) = Some h ->
  sw_kdht (w_sw w) = Some d ->
  exists w',
    connect X m w = Done (connect_result X w h m) w' /\
    (connect_result X w h m <> None ->
     w_sw w' = w_sw w /\ filter is_dial_event (new_events w w') = []).
Proof.
  intros Hh Hd. unfold connect_result.
  destruct (x_ParseString X m) as [c|pa] eqn:Hpa.
  { unfold connect, ipfsaddr_ParseString. rewrite Hpa. simpl.
    unfold log_Error, emit, bind, ret. simpl. eexists. split; [done|].
    intros _. split; [done|]. by rewrite new_events_app. }
  destruct (x_AddrInfoFromP2pAddr X pa) as [c|ai] eqn:Hai.
  { unfold connect, ipfsaddr_ParseString, peer_AddrInfoFromP2pAddr.
    rewrite Hpa. simpl. rewrite Hai. simpl.
    unfold log_Error, emit, bind, ret. simpl. eexists. split; [done|].
    intros _. split; [done|]. by rewrite new_events_app. }
  destruct (x_Connect X h ai (w_ext w)) as [[c|] n1] eqn:Hc; simpl.
  { unfold connect, ipfsaddr_ParseString, peer_AddrInfoFromP2pAddr.
    rewrite Hpa. simpl. rewrite Hai. simpl.
    unfold the_host, host_Connect, log_Error, emit, call, get_sw, bind, ret.
    simpl. rewrite Hh, Hc. simpl. eexists. split; [done|].
    intros _. split; [done|]. by rewrite <- app_assoc, new_events_app. }
  rewrite (connect_run X w m pa ai h n1 Hpa Hai Hh Hc).
  destruct (dialPeersAsync_returns X
              (mkWorld (w_sw w) n1 (w_trace w ++ [EConnect h ai])) (ai_ID ai) h d Hh Hd)
    as (r & w2 & -> & _).
  destruct r; by eexists.
Qed.

(** X20: [bootstrap] returns an error exactly when the bootstrap of the DHT
    itself fails; it then has tried no candidate, whatever the fuel. *)
Theorem bootstrap_fails_only_on_DHT fuel w e w' :
  bootstrap X fuel w = Done (Some e) w' <->
  exists d c n1,
    sw_kdht (w_sw w) = Some d /\
    x_DHTBootstrap X d (w_ext w) = (Some c, n1) /\
    e = ExtErr DHTBootstrap c /\
    w' = mkWorld (w_sw w) n1
           (w_trace w ++
              [EDHTBootstrap d;
               ELog LError "kdht bootstrap failed @ p2p.bootstrap, err: %v" []]).
Proof.
  split.
  - destruct (sw_kdht (w_sw w)) as [d|] eqn:Hd.
    + rewrite (bootstrap_run X w d Hd).
      destruct (x_DHTBootstrap X d (w_ext w)) as [[c|] n1] eqn:Hb.
      * intros [= <- <-]. by exists d, c, n1.
      * intros Hrun. by apply bootstrap_retry_Done in Hrun as [? _].
    + unfold bootstrap, the_kdht, bind at 1 2, get_sw. by rewrite Hd.
  - intros (d & c & n1 & Hd & Hb & -> & ->).
    by rewrite (bootstrap_run X w d Hd), Hb.
Qed.

Lemma for_range_skip {A} (l : list A) (body : A -> M unit) w :
  Forall (fun a => body a w = Done tt w) l -> for_range l body w = Done tt w.
Proof.
  induction 1 as [|a l Ha Hl IH]; [done|].
  simpl. unfold bind. by rewrite Ha.
Qed.

(** X21: a tick of the discovery routine passes over every identity of the
    routing table that has an entry in the set, whether or not that entry
    is still valid, and over every identity without a known address: with
    only such identities listed, the tick changes nothing. *)
Theorem acceptTick_skips w h d l n' :
  sw_host (w_sw w) = Some h ->
  sw_kdht (w_sw w) = Some d ->
  x_ListPeers X d (w_ext w) = (l, n') ->
  Forall (fun id => is_Some (sw_peers (w_sw w) !! id) \/
                    x_PeerstoreAddrs X h id n' = []) l ->
  acceptTick X w = Done tt (mkWorld (w_sw w) n' (w_trace w)).
Proof.
  intros Hh Hd Hl Hskip.
  unfold acceptTick, the_kdht, RoutingTable_ListPeers, call, get_sw, bind at 1 2 3.
  rewrite Hd. simpl. rewrite Hl.
  apply for_range_skip. eapply Forall_impl; [exact Hskip|].
  intros id Hid. simpl.
  unfold PeerSet_Find, genPeerMultiID, the_host, Peerstore_PeerInfo, read,
    get_sw, bind, ret. simpl.
  destruct (sw_peers (w_sw w) !! id) as [p|] eqn:Hp; simpl.
  { reflexivity. }
  destruct Hid as [[? ?]|Haddr]; [congruence|].
  rewrite Hh. simpl. rewrite Haddr. simpl. reflexivity.
Qed.

End DiscoveryPaths.

(** * The further properties at work *)

Lemma GenRandomID_value_witness :
  (0 <= Demo2.clock < 2 ^ 62)%Z /\
  (Demo2.clock / 2
     <= libs.GenRandomID Z Demo2.NewSource Demo2.Int63 Demo2.Intn Demo2.clock
     < Demo2.clock / 2 + 3 * 2 ^ 61)%Z.
Proof.
  assert (Hclock : (0 <= Demo2.clock < 2 ^ 62)%Z) by (vm_compute; split; congruence).
  split; [exact Hclock|].
  assert (H63 : forall g, (0 <= fst (Demo2.Int63 g) < 2 ^ 63)%Z).
  { intros g. simpl. apply Z.mod_pos_bound. reflexivity. }
  assert (Hn : forall n g, (0 < n)%Z -> (0 <= fst (Demo2.Intn n g) < n)%Z).
  { intros n g Hpos. simpl. by apply Z.mod_pos_bound. }
  pose proof (GenRandomID_value Demo2.NewSource Demo2.Int63 Demo2.Intn H63 Hn
                Demo2.clock Hclock) as Hv.
  destruct (libs.draws Z Demo2.NewSource Demo2.Int63 Demo2.Intn Demo2.clock)
    as [[[r1 r2] n1] n2].
  exact (proj2 (proj2 (proj2 Hv))).
Defined.

Lemma root_dir_is_final_witness :
  "/data" <> "" /\
  libs.run_root "/opt/app" [libs.CallGet; libs.CallSet "/tmp"; libs.CallGet] "/data"
    = (["/data"; "/data"], "/data").
Proof.
  assert (Hne : "/data" <> "") by discriminate.
  split; [exact Hne|].
  exact (root_dir_is_final "/opt/app"
           [libs.CallGet; libs.CallSet "/tmp"; libs.CallGet] "/data" Hne).
Defined.

Lemma root_dir_first_wins_witness :
  libs.fixes "" (libs.CallSet "/data") = Some "/data" /\
  libs.run_root ""
    ([libs.CallGet; libs.CallSet ""] ++
     libs.CallSet "/data" :: [libs.CallSet "/tmp"; libs.CallGet]) ""
    = ([""; "/data"], "/data").
Proof.
  split; [reflexivity|].
  apply (root_dir_first_wins "" [libs.CallGet; libs.CallSet ""]
           (libs.CallSet "/data") [libs.CallSet "/tmp"; libs.CallGet] "/data").
  - repeat constructor.
  - reflexivity.
Defined.


Lemma reactor_table_write_once_witness :
  let w := mkWorld (mkSwitch (Demo.cfg []) None (Some (HostHandle 0))
                             (Some (DHTHandle 0)) ∅ {[ "consensus" := 1%nat ]})
                   Demo.lively [] in
  exists w',
    run_ops Demo.ext [OpAddReactor "consensus" 2%nat; OpAddReactor "mempool" 3%nat;
                      OpDial "QmAlice"] w = Done tt w' /\
    registered w' "consensus" = Some 1%nat.
Proof.
  intros w.
  assert (E : exists w',
    run_ops Demo.ext [OpAddReactor "consensus" 2%nat; OpAddReactor "mempool" 3%nat;
                      OpDial "QmAlice"] w = Done tt w')
    by (vm_compute; eexists; reflexivity).
  destruct E as [w' Hrun]. exists w'. split; [exact Hrun|].
  apply (proj1 (reactor_table_write_once Demo.ext _ w w' Hrun)).
  vm_compute. reflexivity.
Defined.

Lemma peer_entries_never_removed_witness :
  exists w',
    run_ops Demo.ext [OpInbound (StreamHandle 0); OpDial "QmBob";
                      OpOutside (fun _ => Demo.quiet); OpBroadcast 1 []]
            Demo.with_alice = Done tt w' /\
    is_Some (sw_peers (w_sw w') !! "QmAlice").
Proof.
  assert (E : exists w',
    run_ops Demo.ext [OpInbound (StreamHandle 0); OpDial "QmBob";
                      OpOutside (fun _ => Demo.quiet); OpBroadcast 1 []]
            Demo.with_alice = Done tt w')
    by (vm_compute; eexists; reflexivity).
  destruct E as [w' Hrun]. exists w'. split; [exact Hrun|].
  apply (peer_entries_never_removed Demo.ext _ Demo.with_alice w' "QmAlice" Hrun).
  exists Demo.alice. vm_compute. reflexivity.
Defined.


Lemma Start_failure_witness :
  exists w',
    Start Demo.ext 1 (NewSwitch (Demo.cfg ["QmAlice"]) Demo.no_dht)
      = Done (Some (ExtErr NewDHT 10)) w' /\
    sw_host (w_sw w') = Some (HostHandle 0) /\
    sw_kdht (w_sw w') = None /\
    sw_peers (w_sw w') = ∅.
Proof.
  assert (E : exists w',
    Start Demo.ext 1 (NewSwitch (Demo.cfg ["QmAlice"]) Demo.no_dht)
      = Done (Some (ExtErr NewDHT 10)) w')
    by (vm_compute; eexists; reflexivity).
  destruct E as [w' Hrun]. exists w'. split; [exact Hrun|].
  destruct (Start_failure Demo.ext _ _ _ _ Hrun) as (Hpeers & _ & _ & h & Hh & Hd & _).
  split; [|split; [exact Hd|exact Hpeers]].
  vm_compute in Hrun. injection Hrun as <-. reflexivity.
Defined.

Lemma Start_panics_without_listen_address_witness :
  exists w',
    Start Demo2.ext_no_addr 1 (NewSwitch (Demo.cfg []) Demo.lively) = Panic w' /\
    sw_host (w_sw w') = Some (HostHandle 0).
Proof.
  destruct (Start_panics_without_listen_address Demo2.ext_no_addr 1
              (NewSwitch (Demo.cfg []) Demo.lively)
              (String.list_byte_of_string "a2V5")
              (PrivKeyOf (String.list_byte_of_string "a2V5"))
              (HostHandle 0) Demo.lively eq_refl eq_refl eq_refl eq_refl)
    as (w' & Hrun & Hsw & _).
  exists w'. split; [exact Hrun|]. by rewrite Hsw.
Defined.

Lemma dialPeersAsync_stream_failure_witness :
  let w := Demo.started [] ∅ Demo.quiet in
  x_NewStream Demo.ext (HostHandle 0) "QmBob" (w_ext w) = (inl 4%nat, Demo.quiet) /\
  exists w',
    dialPeersAsync Demo.ext "QmBob" w = Done (Some (ExtErr HostNewStream 4)) w' /\
    w_ext w' = Demo.quiet.
Proof.
  intros w. split; [reflexivity|]. eexists. split.
  - apply (dialPeersAsync_stream_failure Demo.ext w "QmBob" (HostHandle 0) 4
             Demo.quiet); reflexivity.
  - reflexivity.
Defined.

Lemma dialPeersAsync_success_witness :
  let w := Demo.started [] ∅ Demo.lively in
  exists w',
    dialPeersAsync Demo.ext "QmAlice" w = Done None w' /\
    PeerSet_Find "QmAlice" w' = Done (inr (mkPeer "QmAlice" (StreamHandle 2))) w' /\
    dialPeersAsync Demo.ext "QmAlice" w' = Done None w'.
Proof.
  intros w.
  destruct (dialPeersAsync_success Demo.ext w "QmAlice" (HostHandle 0) (StreamHandle 2)
              (Demo.mkNet [] ["QmAlice"; "QmBob"; "QmCarol"] [] [] 3 false)
              eq_refl eq_refl eq_refl eq_refl)
    as (w' & Hrun & Hsw & Hext & _ & Hfind & Hagain).
  exists w'. split; [exact Hrun|]. split; [exact Hfind|].
  apply Hagain; [reflexivity|]. rewrite Hext. reflexivity.
Defined.

Lemma dialPeersAsync_outcomes_witness :
  exists w',
    dialPeersAsync Demo.ext "QmBob" (Demo.started [] ∅ Demo.refusing)
      = Done (Some (ExtErr NewPeer 7)) w' /\
    w_sw w' = w_sw (Demo.started [] ∅ Demo.refusing).
Proof.
  assert (E : exists w',
    dialPeersAsync Demo.ext "QmBob" (Demo.started [] ∅ Demo.refusing)
      = Done (Some (ExtErr NewPeer 7)) w')
    by (vm_compute; eexists; reflexivity).
  destruct E as [w' Hrun]. exists w'. split; [exact Hrun|].
  exact (proj1 (proj2 (dialPeersAsync_outcomes Demo.ext _ _ _ _ Hrun))).
Defined.

Lemma handleStream_construction_failure_witness :
  let w := Demo.started [] ∅ Demo2.refusing_alice in
  valid_entry Demo.ext w "QmAlice" = None /\
  handleStream Demo.ext (StreamHandle 0) w =
    Done tt (log_to w
      [ELog LError "new remote peer fail @ handleStream, peer_id: %s, err: %v"
            ["QmAlice"]]).
Proof.
  intros w. split; [reflexivity|].
  apply (handleStream_construction_failure Demo.ext w (StreamHandle 0)
           (HostHandle 0) 7); reflexivity.
Defined.

Lemma handleStream_success_witness :
  let w := Demo.started [] ∅ Demo.lively in
  exists w',
    handleStream Demo.ext (StreamHandle 0) w = Done tt w' /\
    PeerSet_Find "QmAlice" w' = Done (inr (mkPeer "QmAlice" (StreamHandle 0))) w'.
Proof.
  intros w.
  destruct (handleStream_success Demo.ext w (StreamHandle 0) (HostHandle 0)
              eq_refl eq_refl eq_refl)
    as (w' & Hrun & _ & _ & _ & Hfind).
  exists w'. split; [exact Hrun|exact Hfind].
Defined.

Lemma handleStream_outcomes_witness :
  exists w',
    handleStream Demo.ext (StreamHandle 1) Demo.with_alice = Done tt w' /\
    sw_peers (w_sw w') !! "QmAlice" = Some Demo.alice.
Proof.
  destruct (handleStream_outcomes Demo.ext Demo.with_alice (StreamHandle 1))
    as [Hret Hafter].
  destruct Hret as [w' Hrun]; [by eexists|].
  exists w'. split; [exact Hrun|].
  destruct (Hafter w' Hrun) as (_ & Hother & _).
  rewrite Hother by discriminate. reflexivity.
Defined.

Lemma admitted_peer_is_Send_target_witness :
  let w := Demo.started [] ∅ Demo.lively in
  x_Decode Demo.ext "QmAlice" = inr (x_RemotePeer Demo.ext (StreamHandle 0)) /\
  exists w1 w2,
    handleStream Demo.ext (StreamHandle 0) w = Done tt w1 /\
    Send Demo.ext "QmAlice" 7 [] w1 = Done None w2 /\
    new_events w1 w2 = [EPeerSend (mkPeer "QmAlice" (StreamHandle 0)) 7 [] true].
Proof.
  intros w. split; [reflexivity|].
  destruct (admitted_peer_is_Send_target Demo.ext w (StreamHandle 0) (HostHandle 0)
              "QmAlice" 7 [] eq_refl eq_refl eq_refl eq_refl)
    as (w1 & w2 & Hin & Hsend & Hev).
  exists w1, w2. split; [exact Hin|].
  vm_compute in Hin. injection Hin as <-. split; [exact Hsend|exact Hev].
Defined.

Lemma connect_returns_witness :
  let w := Demo.started [] ∅ Demo.quiet in
  exists w',
    connect Demo.ext "QmGhost" w = Done (Some (ExtErr HostConnect 3)) w' /\
    w_sw w' = w_sw w.
Proof.
  intros w.
  destruct (connect_returns Demo.ext w "QmGhost" (HostHandle 0) (DHTHandle 0)
              eq_refl eq_refl) as (w' & Hrun & Herr).
  exists w'. split; [exact Hrun|]. apply Herr. discriminate.
Defined.

Lemma acceptTick_skips_witness :
  valid_entry Demo.ext Demo2.stale_alice "QmAlice" = None /\
  acceptTick Demo.ext Demo2.stale_alice = Done tt Demo2.stale_alice.
Proof.
  split; [reflexivity|].
  apply (acceptTick_skips Demo.ext Demo2.stale_alice (HostHandle 0) (DHTHandle 0)
           ["QmAlice"] (w_ext Demo2.stale_alice)); try reflexivity.
  constructor; [|constructor]. left. by exists Demo.alice.
Defined.
